(** * Wallet-connection helpers of rn-concordium-deeplink

    A shallow embedding of the schema and message constructors and of
    [withJsonRpcClient] from [src/src/app.tsx] (the wallet-connection part of
    that file), together with the parts of the JavaScript runtime and of the
    [buffer] and [base64-js] packages those functions call through
    [toBuffer] and [Buffer.prototype.toString].

    Strings are sequences of UTF-16 code units, buffers are sequences of
    bytes, a function that may throw returns a [Result], and the numbers the
    packages compute stay far below 2^31, so that the 32-bit operators of
    JavaScript are the operations of [Z]. Lengths are taken below the limits
    of the engine (a string or buffer of 2^31 elements does not exist). *)

From Stdlib Require Import ZArith List String Ascii Lia Bool.
From Stdlib.Strings Require Import Byte.
Import ListNotations.
Local Open Scope Z_scope.

(** ** JavaScript strings, exceptions and typed-array bytes *)

Module Js.

(** A JavaScript string is its sequence of UTF-16 code units. *)
Definition JsString : Type := list Z.

(** The string literal with the given (ASCII) characters. *)
Definition str (s : string) : JsString :=
  map (fun a => Z.of_N (N_of_ascii a)) (list_ascii_of_string s).

(** [a === b] on strings. *)
Fixpoint strictEq (a b : JsString) : bool :=
  match a, b with
  | [], [] => true
  | x :: a', y :: b' => (x =? y) && strictEq a' b'
  | _, _ => false
  end.

(** [new Error(message)]. *)
Inductive JsError : Type :=
| Error (message : JsString).

(** The outcome of evaluating an expression that may throw. *)
Inductive Result (A : Type) : Type :=
| Return (a : A)
| Throw (e : JsError).
Arguments Return {A} a.
Arguments Throw {A} e.

Definition bind {A B : Type} (r : Result A) (k : A -> Result B) : Result B :=
  match r with
  | Return a => k a
  | Throw e => Throw e
  end.

(** [ToUint8]: what a [Uint8Array] stores when a number is assigned. *)
Definition ToUint8 (z : Z) : byte :=
  match Byte.of_N (Z.to_N (z mod 256)) with
  | Some b => b
  | None => x00
  end.

(** Reading an element of a [Uint8Array] as a number. *)
Definition byteValue (b : byte) : Z := Z.of_N (Byte.to_N b).

(** [WhiteSpace] and [LineTerminator] code units (what [trim] and
    [parseInt] skip). *)
Definition isWhiteSpace (c : Z) : bool :=
  ((9 <=? c) && (c <=? 13)) || (c =? 32) || (c =? 160) || (c =? 5760)
  || ((8192 <=? c) && (c <=? 8202)) || (c =? 8232) || (c =? 8233)
  || (c =? 8239) || (c =? 8287) || (c =? 12288) || (c =? 65279).

Fixpoint trimStart (s : JsString) : JsString :=
  match s with
  | c :: s' => if isWhiteSpace c then trimStart s' else s
  | [] => []
  end.

Definition trimEnd (s : JsString) : JsString := rev (trimStart (rev s)).

Definition trim (s : JsString) : JsString := trimEnd (trimStart s).

(** [s.split(sep)[0]]: the part of [s] before the first [sep]. *)
Fixpoint splitHead (sep : Z) (s : JsString) : JsString :=
  match s with
  | c :: s' => if c =? sep then [] else c :: splitHead sep s'
  | [] => []
  end.

(** [s.indexOf(c)], [None] standing for [-1]. *)
Fixpoint indexOf (c : Z) (s : JsString) : option nat :=
  match s with
  | x :: s' => if x =? c then Some O else option_map S (indexOf c s')
  | [] => None
  end.

(** [s.substr(start, 2)]. *)
Definition substr2 (s : JsString) (start : nat) : JsString :=
  firstn 2 (skipn start s).

(** The value of a radix-16 digit. *)
Definition hexDigitValue (c : Z) : option Z :=
  if (48 <=? c) && (c <=? 57) then Some (c - 48)
  else if (97 <=? c) && (c <=? 102) then Some (c - 87)
  else if (65 <=? c) && (c <=? 70) then Some (c - 55)
  else None.

(** The longest prefix of radix-16 digits, read as a number; [None] when
    that prefix is empty. *)
Fixpoint hexPrefix (s : JsString) (acc : option Z) : option Z :=
  match s with
  | c :: s' =>
      match hexDigitValue c with
      | Some d =>
          hexPrefix s' (Some (16 * match acc with Some a => a | None => 0 end + d))
      | None => acc
      end
  | [] => acc
  end.

(** [parseInt(s, 16)], [None] standing for [NaN]: skip leading white space,
    read a sign, strip a [0x] or [0X] prefix, read the digits. *)
Definition parseInt16 (s : JsString) : option Z :=
  let s1 := trimStart s in
  let '(sign, s2) :=
    match s1 with
    | 45 :: r => (-1, r)
    | 43 :: r => (1, r)
    | _ => (1, s1)
    end in
  let s3 :=
    match s2 with
    | 48 :: 120 :: r => r
    | 48 :: 88 :: r => r
    | _ => s2
    end in
  option_map (Z.mul sign) (hexPrefix s3 None).

End Js.

Import Js.

Declare Scope js_scope.
Notation "x <- r ;; k" := (Js.bind r (fun x => k))
  (at level 61, r at next level, right associativity) : js_scope.
Local Open Scope js_scope.

(** ** The [base64-js] package *)

Module Base64Js.

Definition code : JsString :=
  str "ABCDEFGHIJKLMNOPQRSTUVWXYZabcdefghijklmnopqrstuvwxyz0123456789+/".

(** [lookup[i]] used as a string: the [i]-th character of [code]. Outside
    the table the entry is [undefined]; the indices [fromByteArray] computes
    from bytes never leave the table ([lookup_sextet] below). *)
Definition lookup (i : Z) : JsString :=
  if i <? 0 then str "undefined"
  else match nth_error code (Z.to_nat i) with
       | Some c => [c]
       | None => str "undefined"
       end.

(** [revLookup[c]] used as an operand of [<<], [>>] and [|]: the index of
    [c] in [code], 62 and 63 for the URL-safe ['-'] and ['_'], and 0 for an
    entry that was never set ([undefined]). *)
Definition revLookup (c : Z) : Z :=
  if c =? 45 then 62
  else if c =? 95 then 63
  else match indexOf c code with
       | Some i => Z.of_nat i
       | None => 0
       end.

(** [revLookup[b64.charCodeAt(i)]]; past the end [charCodeAt] is [NaN] and
    the entry is [undefined]. *)
Definition revAt (b64 : JsString) (i : nat) : Z :=
  match nth_error b64 i with
  | Some c => revLookup c
  | None => 0
  end.

Definition getLens (b64 : JsString) : Result (Z * Z) :=
  let len := Z.of_nat (List.length b64) in
  if 0 <? len mod 4 then
    Throw (Error (str "Invalid string. Length must be a multiple of 4"))
  else
    let validLen :=
      match indexOf 61 b64 with
      | Some i => Z.of_nat i
      | None => len
      end in
    let placeHoldersLen := if validLen =? len then 0 else 4 - validLen mod 4 in
    Return (validLen, placeHoldersLen).

Definition _byteLength (validLen placeHoldersLen : Z) : Z :=
  (validLen + placeHoldersLen) * 3 / 4 - placeHoldersLen.

(** The values [i = 0, 4, 8, ...] below [len] that the main loop of
    [toByteArray] visits. *)
Definition quadIndices (len : Z) : list nat :=
  map (fun j => 4 * j)%nat (seq 0 (Z.to_nat ((len + 3) / 4))).

(** One iteration of the main loop: the three bytes written for the four
    characters at [i]. The largest value of [tmp] is [2^24 - 1]. *)
Definition decodeQuad (b64 : JsString) (i : nat) : list byte :=
  let tmp :=
    Z.lor (Z.lor (Z.lor (Z.shiftl (revAt b64 i) 18)
                        (Z.shiftl (revAt b64 (i + 1)) 12))
                 (Z.shiftl (revAt b64 (i + 2)) 6))
          (revAt b64 (i + 3)) in
  [ToUint8 (Z.land (Z.shiftr tmp 16) 255);
   ToUint8 (Z.land (Z.shiftr tmp 8) 255);
   ToUint8 (Z.land tmp 255)].

(** The bytes written after the loop, with [i] where the loop stopped. *)
Definition decodeTail (b64 : JsString) (i : nat) (placeHoldersLen : Z)
  : list byte :=
  (if placeHoldersLen =? 2 then
     let tmp := Z.lor (Z.shiftl (revAt b64 i) 2)
                      (Z.shiftr (revAt b64 (i + 1)) 4) in
     [ToUint8 (Z.land tmp 255)]
   else [])
  ++
  (if placeHoldersLen =? 1 then
     let tmp := Z.lor (Z.lor (Z.shiftl (revAt b64 i) 10)
                             (Z.shiftl (revAt b64 (i + 1)) 4))
                      (Z.shiftr (revAt b64 (i + 2)) 2) in
     [ToUint8 (Z.land (Z.shiftr tmp 8) 255); ToUint8 (Z.land tmp 255)]
   else []).

(** A fresh [Uint8Array] of [n] zero bytes after the consecutive writes
    [arr[curByte++] = ...] of [writes]; a write past the end is dropped. *)
Definition filled (n : Z) (writes : list byte) : list byte :=
  firstn (Z.to_nat n) (writes ++ repeat x00 (Z.to_nat n)).

Definition toByteArray (b64 : JsString) : Result (list byte) :=
  lens <- getLens b64 ;;
  let '(validLen, placeHoldersLen) := lens in
  let len := if 0 <? placeHoldersLen then validLen - 4 else validLen in
  let idx := quadIndices len in
  let i := (4 * List.length idx)%nat in
  Return (filled (_byteLength validLen placeHoldersLen)
                 (flat_map (decodeQuad b64) idx
                  ++ decodeTail b64 i placeHoldersLen)).

Definition tripletToBase64 (num : Z) : JsString :=
  lookup (Z.land (Z.shiftr num 18) 63) ++
  lookup (Z.land (Z.shiftr num 12) 63) ++
  lookup (Z.land (Z.shiftr num 6) 63) ++
  lookup (Z.land num 63).

(** [fromByteArray]: every three bytes give one triplet (the source cuts
    this loop into chunks of 16383 bytes and joins the parts), then the one
    or two extra bytes are padded. *)
Fixpoint fromByteArray (uint8 : list byte) : JsString :=
  match uint8 with
  | a :: b :: c :: rest =>
      tripletToBase64
        (Z.land (Z.shiftl (byteValue a) 16) 16711680
         + Z.land (Z.shiftl (byteValue b) 8) 65280
         + Z.land (byteValue c) 255)
      ++ fromByteArray rest
  | [a] =>
      let tmp := byteValue a in
      lookup (Z.shiftr tmp 2) ++ lookup (Z.land (Z.shiftl tmp 4) 63)
      ++ str "=="
  | [a; b] =>
      let tmp := Z.shiftl (byteValue a) 8 + byteValue b in
      lookup (Z.shiftr tmp 10) ++ lookup (Z.land (Z.shiftr tmp 4) 63)
      ++ lookup (Z.land (Z.shiftl tmp 2) 63) ++ str "="
  | [] => []
  end.

End Base64Js.

(** ** The [buffer] package: [Buffer.from(string, encoding)] and
    [buf.toString(encoding)] for the two encodings the application uses *)

Module BufferJs.

Definition Buffer : Type := list byte.

Inductive Encoding : Type := hex | base64.

(** A character that [INVALID_BASE64_RE = /[^+/0-9A-Za-z-_]/g] leaves. *)
Definition isBase64Char (c : Z) : bool :=
  (c =? 43) || (c =? 47) || ((48 <=? c) && (c <=? 57))
  || ((65 <=? c) && (c <=? 90)) || ((97 <=? c) && (c <=? 122))
  || (c =? 45) || (c =? 95).

(** [while (str.length % 4 !== 0) str = str + '=']; three rounds at most. *)
Fixpoint padToQuad (rounds : nat) (s : JsString) : JsString :=
  match rounds with
  | O => s
  | S r =>
      if (Z.of_nat (List.length s) mod 4 =? 0) then s
      else padToQuad r (s ++ [61])
  end.

Definition base64clean (s : JsString) : JsString :=
  let s1 := splitHead 61 s in
  let s2 := filter isBase64Char (trim s1) in
  if Z.of_nat (List.length s2) <? 2 then []
  else padToQuad 3 s2.

Definition base64ToBytes (s : JsString) : Result (list byte) :=
  Base64Js.toByteArray (base64clean s).

(** [hexWrite]: [n] pairs of characters at most, stopping at the first
    pair [parseInt] does not read. The result is what was written, which is
    the buffer [fromString] returns after its [slice(0, actual)]. *)
Fixpoint hexWrite (n : nat) (s : JsString) (i : nat) : list byte :=
  match n with
  | O => []
  | S n' =>
      match parseInt16 (substr2 s (i * 2)) with
      | None => []
      | Some parsed => ToUint8 parsed :: hexWrite n' s (S i)
      end
  end.

(** [Buffer.from(string, encoding)]. *)
Definition from (s : JsString) (encoding : Encoding) : Result Buffer :=
  match encoding with
  | base64 => base64ToBytes s
  | hex => Return (hexWrite (List.length s / 2)%nat s 0%nat)
  end.

Definition hexAlphabet : JsString := str "0123456789abcdef".

(** [hexSliceLookupTable[b]]: two characters of the lower-case alphabet. *)
Definition hexSliceLookup (b : byte) : JsString :=
  let v := byteValue b in
  [nth (Z.to_nat (v / 16)) hexAlphabet 0; nth (Z.to_nat (v mod 16)) hexAlphabet 0].

Definition hexSlice (buf : Buffer) : JsString := flat_map hexSliceLookup buf.

(** [buf.toString(encoding)]. *)
Definition toString (buf : Buffer) (encoding : Encoding) : JsString :=
  match encoding with
  | base64 => Base64Js.fromByteArray buf
  | hex => hexSlice buf
  end.

End BufferJs.

Import BufferJs.

(** [toBuffer] of [@concordium/web-sdk] is [Buffer.from]. *)
Definition toBuffer (s : JsString) (encoding : Encoding) : Result Buffer :=
  BufferJs.from s encoding.

(** ** Schemas and signable messages ([src/src/app.tsx]) *)

Module ModuleSchema.
Record t {SchemaVersion : Type} : Type := mk {
  type : JsString;
  value : Buffer;
  version : option SchemaVersion
}.
Arguments t : clear implicits.
Arguments mk {SchemaVersion} type value version.
End ModuleSchema.

Module TypeSchema.
Record t : Type := mk {
  type : JsString;
  value : Buffer
}.
End TypeSchema.

(** Discriminated union type for contract invocation schemas. *)
Inductive Schema (SchemaVersion : Type) : Type :=
| SchemaModule (s : ModuleSchema.t SchemaVersion)
| SchemaType (s : TypeSchema.t).
Arguments SchemaModule {SchemaVersion} s.
Arguments SchemaType {SchemaVersion} s.

(** The [type] property of a value of the union. *)
Definition schemaTag {SchemaVersion : Type} (s : Schema SchemaVersion) : JsString :=
  match s with
  | SchemaModule m => ModuleSchema.type m
  | SchemaType t => TypeSchema.type t
  end.

Definition moduleSchema {SchemaVersion : Type}
  (schema : Buffer) (version : option SchemaVersion)
  : ModuleSchema.t SchemaVersion :=
  {| ModuleSchema.type := str "ModuleSchema";
     ModuleSchema.value := schema;
     ModuleSchema.version := version |}.

Definition typeSchema (schema : Buffer) : TypeSchema.t :=
  {| TypeSchema.type := str "TypeSchema";
     TypeSchema.value := schema |}.

Definition schemaAsBuffer (schemaBase64 : JsString) : Result Buffer :=
  res <- toBuffer schemaBase64 base64 ;;
  (* Check round-trip. This requires the provided schema to be properly padded. *)
  if negb (strictEq (toString res base64) schemaBase64) then
    Throw (Error (str "provided schema '" ++ schemaBase64
                  ++ str "' is not valid base64"))
  else Return res.

Definition moduleSchemaFromBase64 {SchemaVersion : Type}
  (schemaBase64 : JsString) (version : option SchemaVersion)
  : Result (ModuleSchema.t SchemaVersion) :=
  buf <- schemaAsBuffer schemaBase64 ;;
  Return (moduleSchema buf version).

Definition typeSchemaFromBase64 (schemaBase64 : JsString)
  : Result TypeSchema.t :=
  buf <- schemaAsBuffer schemaBase64 ;;
  Return (typeSchema buf).

Module TypedSmartContractParameters.
Record t {SmartContractParameters SchemaVersion : Type} : Type := mk {
  parameters : SmartContractParameters;
  schema : Schema SchemaVersion
}.
Arguments t : clear implicits.
End TypedSmartContractParameters.

Module StringMessage.
Record t : Type := mk {
  type : JsString;
  value : JsString
}.
End StringMessage.

Module BinaryMessage.
Record t : Type := mk {
  type : JsString;
  value : Buffer;
  schema : TypeSchema.t
}.
End BinaryMessage.

(** Discriminated union type for signable messages. *)
Inductive SignableMessage : Type :=
| MessageString (m : StringMessage.t)
| MessageBinary (m : BinaryMessage.t).

Definition stringMessage (msg : JsString) : StringMessage.t :=
  {| StringMessage.type := str "StringMessage";
     StringMessage.value := msg |}.

Definition messageAsBuffer (msgHex : JsString) : Result Buffer :=
  res <- toBuffer msgHex hex ;;
  (* Check round-trip. *)
  if negb (strictEq (toString res hex) msgHex) then
    Throw (Error (str "provided message '" ++ msgHex ++ str "' is not valid hex"))
  else Return res.

Definition binaryMessageFromHex (msgHex : JsString) (schema : TypeSchema.t)
  : Result BinaryMessage.t :=
  buf <- messageAsBuffer msgHex ;;
  Return {| BinaryMessage.type := str "BinaryMessage";
            BinaryMessage.value := buf;
            BinaryMessage.schema := schema |}.

(** ** Wallet connections ([src/src/app.tsx]) *)

(** What a promise settles to; [Pending] is a promise that never settles. *)
Inductive Promise (T : Type) : Type :=
| Fulfilled (value : T)
| Rejected (reason : JsError)
| Pending.
Arguments Fulfilled {T} value.
Arguments Rejected {T} reason.
Arguments Pending {T}.

Section WalletConnections.

(** Types of [@concordium/node-sdk] and
    [@concordium/browser-wallet-api-helpers], the connector type, and the
    state of wallet and network that the methods of a connection read and
    change. *)
Variables JsonRpcClient AccountTransactionType SendTransactionPayload
          AccountTransactionSignature SmartContractParameters SchemaVersion
          WalletConnector : Type.
Variable World : Type.

(** A call that reads and changes the state. *)
Definition Eff (A : Type) : Type := World -> A * World.

(** The interface [WalletConnection]: one field per method. *)
Record WalletConnection : Type := {
  getConnector : Eff WalletConnector;
  ping : Eff (Promise unit);
  getJsonRpcClient : Eff (Result JsonRpcClient);
  signAndSendTransaction :
    JsString -> AccountTransactionType -> SendTransactionPayload ->
    option (TypedSmartContractParameters.t SmartContractParameters
                                           SchemaVersion) ->
    Eff (Promise JsString);
  signMessage :
    JsString -> SignableMessage -> Eff (Promise AccountTransactionSignature);
  disconnect : Eff (Promise unit)
}.

(** The calls [withJsonRpcClient] makes, recorded in order. *)
Inductive Call : Type :=
| CallGetJsonRpcClient
| CallF (c : JsonRpcClient).

(** [async function withJsonRpcClient(connection, f)
     { return f(connection.getJsonRpcClient()); }].
    The argument is evaluated first; an exception thrown in the body of an
    [async] function rejects the promise it returns, and returning the
    promise of [f] settles that promise the same way. *)
Definition withJsonRpcClient {T : Type}
  (connection : WalletConnection)
  (f : JsonRpcClient -> Eff (Result (Promise T)))
  (st : World * list Call) : Promise T * (World * list Call) :=
  let '(w, calls) := st in
  let '(client, w1) := getJsonRpcClient connection w in
  let calls1 := calls ++ [CallGetJsonRpcClient] in
  match client with
  | Throw e => (Rejected e, (w1, calls1))
  | Return c =>
      let '(r, w2) := f c w1 in
      let calls2 := calls1 ++ [CallF c] in
      match r with
      | Throw e => (Rejected e, (w2, calls2))
      | Return p => (p, (w2, calls2))
      end
  end.

End WalletConnections.

Arguments getJsonRpcClient {_ _ _ _ _ _ _ _} _ _.
Arguments CallGetJsonRpcClient {_}.
Arguments CallF {_} c.
Arguments withJsonRpcClient {_ _ _ _ _ _ _ _ _} connection f st.

(** ** The constructors with their effects made explicit *)

Module Effectful.
Section WithWorld.

(** Everything a JavaScript call can read and change besides its
    arguments. *)
Variable World : Type.

(** A call: from the world before it to what it returns or throws and the
    world after it. *)
Definition Js (A : Type) : Type := World -> Result A * World.

Definition ret {A : Type} (a : A) : Js A := fun w => (Return a, w).

Definition throw {A : Type} (e : JsError) : Js A := fun w => (Throw e, w).

Definition bind {A B : Type} (c : Js A) (k : A -> Js B) : Js B :=
  fun w =>
    match c w with
    | (Return a, w1) => k a w1
    | (Throw e, w1) => (Throw e, w1)
    end.

(** The two functions of other packages that the constructors call; here
    they may do anything to the world. *)
Record BufferApi : Type := {
  toBuffer : JsString -> Encoding -> Js Buffer;
  toString : Buffer -> Encoding -> Js JsString
}.

Variable api : BufferApi.

Definition moduleSchema {SchemaVersion : Type}
  (schema : Buffer) (version : option SchemaVersion)
  : Js (ModuleSchema.t SchemaVersion) :=
  ret {| ModuleSchema.type := str "ModuleSchema";
         ModuleSchema.value := schema;
         ModuleSchema.version := version |}.

Definition typeSchema (schema : Buffer) : Js TypeSchema.t :=
  ret {| TypeSchema.type := str "TypeSchema";
         TypeSchema.value := schema |}.

Definition schemaAsBuffer (schemaBase64 : JsString) : Js Buffer :=
  bind (toBuffer api schemaBase64 base64) (fun res =>
  bind (toString api res base64) (fun text =>
  if negb (strictEq text schemaBase64) then
    throw (Error (str "provided schema '" ++ schemaBase64
                  ++ str "' is not valid base64"))
  else ret res)).

Definition moduleSchemaFromBase64 {SchemaVersion : Type}
  (schemaBase64 : JsString) (version : option SchemaVersion)
  : Js (ModuleSchema.t SchemaVersion) :=
  bind (schemaAsBuffer schemaBase64) (fun buf => moduleSchema buf version).

Definition typeSchemaFromBase64 (schemaBase64 : JsString) : Js TypeSchema.t :=
  bind (schemaAsBuffer schemaBase64) (fun buf => typeSchema buf).

Definition stringMessage (msg : JsString) : Js StringMessage.t :=
  ret {| StringMessage.type := str "StringMessage";
         StringMessage.value := msg |}.

Definition messageAsBuffer (msgHex : JsString) : Js Buffer :=
  bind (toBuffer api msgHex hex) (fun res =>
  bind (toString api res hex) (fun text =>
  if negb (strictEq text msgHex) then
    throw (Error (str "provided message '" ++ msgHex
                  ++ str "' is not valid hex"))
  else ret res)).

Definition binaryMessageFromHex (msgHex : JsString) (schema : TypeSchema.t)
  : Js BinaryMessage.t :=
  bind (messageAsBuffer msgHex) (fun buf =>
  ret {| BinaryMessage.type := str "BinaryMessage";
         BinaryMessage.value := buf;
         BinaryMessage.schema := schema |}).

(** A call without side effects: it leaves the world as it is, and what it
    returns or throws is the same in every world. *)
Definition pure {A : Type} (c : Js A) : Prop :=
  exists r : Result A, forall w : World, c w = (r, w).

(** Both functions of the package are without side effects. *)
Definition pureApi : Prop :=
  (forall s encoding, pure (toBuffer api s encoding))
  /\ (forall buf encoding, pure (toString api buf encoding)).

End WithWorld.
End Effectful.

Arguments Effectful.ret {World A} a w.
Arguments Effectful.throw {World A} e w.
Arguments Effectful.bind {World A B} c k w.
Arguments Effectful.moduleSchema {World SchemaVersion} schema version w.
Arguments Effectful.typeSchema {World} schema w.
Arguments Effectful.stringMessage {World} msg w.
Arguments Effectful.schemaAsBuffer {World} api schemaBase64 w.
Arguments Effectful.moduleSchemaFromBase64
  {World} api {SchemaVersion} schemaBase64 version w.
Arguments Effectful.typeSchemaFromBase64 {World} api schemaBase64 w.
Arguments Effectful.messageAsBuffer {World} api msgHex w.
Arguments Effectful.binaryMessageFromHex {World} api msgHex schema w.
Arguments Effectful.pure {World A} c.
Arguments Effectful.pureApi {World} api.

(** The [buffer] package as modelled above: its two functions compute from
    their arguments alone. *)
Definition bufferPackage (World : Type) : Effectful.BufferApi World :=
  {| Effectful.toBuffer := fun s encoding w => (toBuffer s encoding, w);
     Effectful.toString :=
       fun buf encoding w => (Return (toString buf encoding), w) |}.

(** A package whose decoder looks at the world, here a flag: an example of
    what [pureApi] excludes. *)
Definition flaggedPackage : Effectful.BufferApi bool :=
  {| Effectful.toBuffer :=
       fun s encoding (w : bool) =>
         (if w then toBuffer s encoding else Return [], w);
     Effectful.toString :=
       fun buf encoding w => (Return (toString buf encoding), w) |}.

(** ** The deep-link button ([src/src/components/deep-link.tsx]) *)

Section DeepLink.

(** The state of the device that [Linking] and [Alert] read and change, and
    the values a call may throw that are not instances of [Error]. *)
Variable World : Type.
Variable NonError : Type.

(** A thrown value, or the reason of a rejected promise. *)
Inductive Thrown : Type :=
| ThrownError (e : JsError)
| ThrownOther (v : NonError).

(** What [await call(...)] gives inside a [try]: the call returns a promise
    that fulfils; or it throws, or its promise rejects, with a value; or the
    promise never settles. *)
Inductive Awaited : Type :=
| AwaitFulfilled
| AwaitThrown (v : Thrown)
| AwaitNever.

(** How the promise of [concordiumDeepLinkHandle] ends. *)
Inductive HandleOutcome : Type :=
| HandleFulfilled
| HandleRejected (v : Thrown)
| HandlePending.

(** The calls [concordiumDeepLinkHandle] makes, recorded in order. *)
Inductive DeepLinkCall : Type :=
| CallOpenURL (url : JsString)
| CallAlert (message : JsString).

(** [Linking.openURL] and [Alert.alert]; [alert] returns [None] when it
    returns normally and [Some v] when it throws [v]. *)
Variable openURL : JsString -> World -> Awaited * World.
Variable alert : JsString -> World -> option Thrown * World.

(** [async function concordiumDeepLinkHandle()]: open [concordium://]; a
    failure that is an [Error] is shown in an alert, any other is dropped. *)
Definition concordiumDeepLinkHandle (st : World * list DeepLinkCall)
  : HandleOutcome * (World * list DeepLinkCall) :=
  let '(w, calls) := st in
  let '(opened, w1) := openURL (str "concordium://") w in
  let calls1 := calls ++ [CallOpenURL (str "concordium://")] in
  match opened with
  | AwaitFulfilled => (HandleFulfilled, (w1, calls1))
  | AwaitNever => (HandlePending, (w1, calls1))
  | AwaitThrown (ThrownError (Error message)) =>
      let '(alerted, w2) := alert message w1 in
      let calls2 := calls1 ++ [CallAlert message] in
      match alerted with
      | None => (HandleFulfilled, (w2, calls2))
      | Some v => (HandleRejected v, (w2, calls2))
      end
  | AwaitThrown (ThrownOther _) => (HandleFulfilled, (w1, calls1))
  end.

End DeepLink.

Arguments ThrownError {NonError} e.
Arguments ThrownOther {NonError} v.
Arguments AwaitFulfilled {NonError}.
Arguments AwaitThrown {NonError} v.
Arguments AwaitNever {NonError}.
Arguments HandleFulfilled {NonError}.
Arguments HandleRejected {NonError} v.
Arguments HandlePending {NonError}.
Arguments concordiumDeepLinkHandle {World NonError} openURL alert st.

(** ** The counter (the [Counter] component) *)

(** [state + 1] and [state - 1] on numbers: exact on the integers between
    [-2^53] and [2^53], except that [2^53 + 1] rounds to [2^53] and
    [-2^53 - 1] to [-2^53]. Counting from 0 by these two steps never leaves
    that range. *)
Definition plusOne (state : Z) : Z :=
  if state =? 9007199254740992 then state else state + 1.

Definition minusOne (state : Z) : Z :=
  if state =? -9007199254740992 then state else state - 1.

(** The two buttons: [decrement] is the first, [increment] the second. *)
Inductive CounterPress : Type :=
| PressDecrement
| PressIncrement.

(** [increment] and [decrement] hand [setCount] an updater of the state. *)
Definition setCount (updater : Z -> Z) (count : Z) : Z := updater count.

Definition increment (count : Z) : Z :=
  setCount (fun state => plusOne state) count.

Definition decrement (count : Z) : Z :=
  setCount (fun state => minusOne state) count.

Definition press (count : Z) (p : CounterPress) : Z :=
  match p with
  | PressDecrement => decrement count
  | PressIncrement => increment count
  end.

(** The count shown after a sequence of presses, from [useState(0)]. *)
Definition countAfter (presses : list CounterPress) : Z :=
  fold_left press presses 0.

(** How many times a button occurs in a sequence of presses. *)
Definition timesPressed (p : CounterPress) (presses : list CounterPress) : Z :=
  Z.of_nat (List.length
              (filter (fun q => match p, q with
                                | PressDecrement, PressDecrement => true
                                | PressIncrement, PressIncrement => true
                                | _, _ => false
                                end) presses)).

(** ** Notions used in the statements and their proofs *)

(** The character [code[i]]. *)
Definition sextetChar (i : Z) : Z := nth (Z.to_nat i) Base64Js.code 0.

Definition sextetOk (i : Z) : bool :=
  strictEq (Base64Js.lookup i) [sextetChar i]
  && (Base64Js.revLookup (sextetChar i) =? i)
  && isBase64Char (sextetChar i).

(** Number of complete triplets of a byte sequence, and of placeholder
    characters its encoding ends with. *)
Fixpoint triplets (uint8 : list byte) : nat :=
  match uint8 with
  | _ :: _ :: _ :: rest => S (triplets rest)
  | _ => O
  end.

Fixpoint placeHolders (uint8 : list byte) : nat :=
  match uint8 with
  | _ :: _ :: _ :: rest => placeHolders rest
  | [_] => 2
  | [_; _] => 1
  | _ => 0
  end.

(** The 24-bit number three bytes are packed into. *)
Definition packed (a b c : byte) : Z :=
  byteValue a * 65536 + byteValue b * 256 + byteValue c.

(** The four characters that encode a 24-bit number. *)
Definition quadChars (t : Z) : JsString :=
  [sextetChar (Z.land (Z.shiftr t 18) 63);
   sextetChar (Z.land (Z.shiftr t 12) 63);
   sextetChar (Z.land (Z.shiftr t 6) 63);
   sextetChar (Z.land t 63)].

(** Characters of the last, padded quadruplet that are not placeholders. *)
Definition tailChars (p : nat) : nat :=
  match p with
  | O => 0
  | S O => 3
  | _ => 2
  end%nat.

(** A digit [0-9a-f]. *)
Definition isLowerHexDigit (c : Z) : bool :=
  ((48 <=? c) && (c <=? 57)) || ((97 <=? c) && (c <=? 102)).

(** A digit [0-9a-fA-F]. *)
Definition isHexDigit (c : Z) : bool :=
  isLowerHexDigit c || ((65 <=? c) && (c <=? 70)).

(** A hex string: an even number of hexadecimal digits, in either case. *)
Definition isHexString (s : JsString) : bool :=
  Nat.even (List.length s) && forallb isHexDigit s.

(** A lower-case hex string: an even number of digits [0-9a-f]. *)
Definition isLowerHexString (s : JsString) : bool :=
  Nat.even (List.length s) && forallb isLowerHexDigit s.

(** The byte whose two lower-case digits are [h] and [l]. *)
Definition byteOfDigits (h l : Z) : byte :=
  match parseInt16 [h; l] with
  | Some v => ToUint8 v
  | None => x00
  end.

(** A canonical base64 encoding: the base64 text of some byte sequence. *)
Definition canonicalBase64 (s : JsString) : Prop :=
  exists buf : Buffer, s = toString buf base64.

(** A character of the base64 alphabet of RFC 4648: [A-Za-z0-9+/]. *)
Definition isStandardChar (c : Z) : bool :=
  ((65 <=? c) && (c <=? 90)) || ((97 <=? c) && (c <=? 122))
  || ((48 <=? c) && (c <=? 57)) || (c =? 43) || (c =? 47).

(** The six bits a character of that alphabet stands for. *)
Definition sextetValue (c : Z) : Z :=
  if (65 <=? c) && (c <=? 90) then c - 65
  else if (97 <=? c) && (c <=? 122) then c - 71
  else if (48 <=? c) && (c <=? 57) then c + 4
  else if c =? 43 then 62
  else 63.

(** The canonical base64 texts, read off the string: quadruplets of alphabet
    characters, the last of which may end with one or two ['='], in which
    case the bits of the character before them that encode no byte are
    zero. *)
Fixpoint isCanonicalBase64 (s : JsString) : bool :=
  match s with
  | [] => true
  | c0 :: c1 :: c2 :: c3 :: rest =>
      isStandardChar c0 && isStandardChar c1
      && (if c3 =? 61 then
            match rest with
            | [] =>
                if c2 =? 61 then sextetValue c1 mod 16 =? 0
                else isStandardChar c2 && (sextetValue c2 mod 4 =? 0)
            | _ :: _ => false
            end
          else isStandardChar c2 && isStandardChar c3 && isCanonicalBase64 rest)
  | _ => false
  end.

Definition standardOk (c : Z) : bool :=
  implb (isStandardChar c)
        ((0 <=? sextetValue c) && (sextetValue c <? 64)
         && (sextetChar (sextetValue c) =? c)).

Definition sextetStandard (i : Z) : bool :=
  isStandardChar (sextetChar i) && (sextetValue (sextetChar i) =? i).

Definition notValidBase64 (schemaBase64 : JsString) : JsError :=
  Error (str "provided schema '" ++ schemaBase64 ++ str "' is not valid base64").

Definition notValidHex (msgHex : JsString) : JsError :=
  Error (str "provided message '" ++ msgHex ++ str "' is not valid hex").

(** What the promise of an [async] function settles to when its body ends
    with [return f(...)]: the promise [f] returned, or a rejection with what
    [f] threw. *)
Definition settled {T : Type} (r : Result (Promise T)) : Promise T :=
  match r with
  | Return p => p
  | Throw e => Rejected e
  end.

(** A connection over a counter, for the examples: [getJsonRpcClient] counts
    its calls and gives [client]. *)
Definition counterConnection (client : Result nat)
  : WalletConnection nat unit unit unit unit unit unit nat :=
  {| getConnector := fun w => (tt, w);
     ping := fun w => (Fulfilled tt, w);
     getJsonRpcClient := fun w => (client, S w);
     signAndSendTransaction := fun _ _ _ _ w => (Pending, w);
     signMessage := fun _ _ w => (Pending, w);
     disconnect := fun w => (Fulfilled tt, w) |}.

(** Lower case of a hexadecimal digit. *)
Definition hexToLower (c : Z) : Z :=
  if (65 <=? c) && (c <=? 70) then c + 32 else c.

(** The base64 text of a buffer without its placeholders. *)
Definition unpaddedBase64 (buf : Buffer) : JsString :=
  splitHead 61 (toString buf base64).

Definition hexPairOk (h l : Z) : bool :=
  match parseInt16 [h; l] with
  | Some _ =>
      strictEq (hexSliceLookup (byteOfDigits h l)) [hexToLower h; hexToLower l]
  | None => false
  end.

(** * Properties *)

(** ** The model on small inputs *)

Example from_base64_text :
  toBuffer (str "QUJDRP8=") base64 = Return [x41; x42; x43; x44; xff].
Proof. reflexivity. Qed.

Example toString_base64_text :
  toString [x41; x42; x43; x44; xff] base64 = str "QUJDRP8=".
Proof. reflexivity. Qed.

(** The decoder is lenient: missing padding, the URL-safe alphabet, white
    space and non-zero unused bits are all read. *)
Example from_base64_lenient :
  toBuffer (str "AAE") base64 = Return [x00; x01]
  /\ toBuffer (str "-_8=") base64 = Return [xfb; xff]
  /\ toBuffer (str " AA E= ") base64 = Return [x00; x01]
  /\ toBuffer (str "AAF=") base64 = Return [x00; x01]
  /\ toBuffer (str "A") base64 = Return [].
Proof. repeat split. Qed.

Example schemaAsBuffer_strict :
  schemaAsBuffer (str "AAE")
  = Throw (Error (str "provided schema 'AAE' is not valid base64"))
  /\ schemaAsBuffer (str "-_8=")
     = Throw (Error (str "provided schema '-_8=' is not valid base64"))
  /\ schemaAsBuffer (str "+/8=") = Return [xfb; xff].
Proof. repeat split. Qed.

(** [hexWrite] stops at the first pair [parseInt] rejects, and [parseInt]
    reads upper-case digits, a sign, and a single digit next to a blank. *)
Example from_hex_lenient :
  toBuffer (str "DEADbeef") hex = Return [xde; xad; xbe; xef]
  /\ toBuffer (str "abc") hex = Return [xab]
  /\ toBuffer (str "12zz34") hex = Return [x12]
  /\ toBuffer (str "a -a0x12") hex = Return [x0a; xf6].
Proof. repeat split. Qed.

Example messageAsBuffer_strict :
  messageAsBuffer (str "abc")
  = Throw (Error (str "provided message 'abc' is not valid hex"))
  /\ messageAsBuffer (str "0a") = Return [x0a].
Proof. repeat split. Qed.

(** ** Strings and bytes *)

Lemma strictEq_spec (a b : JsString) : strictEq a b = true <-> a = b.
Proof.
  revert b; induction a as [|x a IH]; intros [|y b]; simpl;
    try (split; [discriminate|congruence]); try tauto.
  rewrite andb_true_iff, Z.eqb_eq, IH.
  split; [intros [-> ->]; reflexivity | intros [= -> ->]; auto].
Qed.

Lemma strictEq_refl (a : JsString) : strictEq a a = true.
Proof. apply strictEq_spec; reflexivity. Qed.

Lemma strictEq_neq (a b : JsString) : a <> b -> strictEq a b = false.
Proof.
  intros H. destruct (strictEq a b) eqn:E; [|reflexivity].
  apply strictEq_spec in E. contradiction.
Qed.

Lemma byteValue_range (b : byte) : 0 <= byteValue b < 256.
Proof.
  unfold byteValue. pose proof (Byte.to_N_bounded b). lia.
Qed.

Lemma ToUint8_byteValue (b : byte) : ToUint8 (byteValue b) = b.
Proof.
  unfold ToUint8. pose proof (byteValue_range b) as H.
  rewrite Z.mod_small by exact H.
  unfold byteValue. rewrite N2Z.id, Byte.of_to_N. reflexivity.
Qed.

Lemma byteValue_ToUint8 (z : Z) : 0 <= z < 256 -> byteValue (ToUint8 z) = z.
Proof.
  intros H. unfold ToUint8, byteValue. rewrite Z.mod_small by exact H.
  destruct (Byte.of_N (Z.to_N z)) as [b|] eqn:E.
  - apply Byte.to_of_N in E. rewrite E. lia.
  - pose proof (Byte.to_of_N_option_map (Z.to_N z)) as M.
    rewrite E in M. simpl in M.
    destruct (N.leb_spec (Z.to_N z) 255); [discriminate | lia].
Qed.

(** ** Bit operations as arithmetic *)

Lemma lor_shiftl_add (hi lo k : Z) :
  0 <= k -> 0 <= lo < 2 ^ k -> Z.lor (Z.shiftl hi k) lo = hi * 2 ^ k + lo.
Proof.
  intros Hk Hlo.
  rewrite <- Z.shiftl_mul_pow2 by lia.
  rewrite <- Z.add_lor_land.
  replace (Z.land (Z.shiftl hi k) lo) with 0; [lia|].
  symmetry. apply Z.bits_inj'; intros n Hn.
  rewrite Z.land_spec, Z.bits_0.
  destruct (Z.ltb_spec n k).
  - rewrite Z.shiftl_spec_low by lia. reflexivity.
  - replace (Z.testbit lo n) with false; [apply andb_false_r|].
    symmetry. destruct (Z.eq_dec lo 0) as [->|].
    + apply Z.bits_0.
    + apply Z.bits_above_log2; try lia.
      apply Z.log2_lt_pow2; try lia.
      assert (2 ^ k <= 2 ^ n) by (apply Z.pow_le_mono_r; lia). lia.
Qed.

Lemma lor_disjoint (k hi lo : Z) :
  0 <= k -> 0 <= lo < 2 ^ k -> hi mod 2 ^ k = 0 -> Z.lor hi lo = hi + lo.
Proof.
  intros Hk Hlo Hhi.
  assert (E : hi = (hi / 2 ^ k) * 2 ^ k).
  { pose proof (Z.div_mod hi (2 ^ k)). lia. }
  rewrite E at 1. rewrite <- Z.shiftl_mul_pow2 by lia.
  rewrite lor_shiftl_add by lia. lia.
Qed.

(** Masks and shifts by constants become [mod], [/] and [*]. *)
Ltac bits_to_arith :=
  change 63 with (Z.ones 6); change 255 with (Z.ones 8);
  rewrite ?Z.land_ones, ?Z.shiftr_div_pow2, ?Z.shiftl_mul_pow2 by lia;
  change (2 ^ 2) with 4; change (2 ^ 4) with 16; change (2 ^ 6) with 64;
  change (2 ^ 8) with 256; change (2 ^ 10) with 1024;
  change (2 ^ 12) with 4096; change (2 ^ 16) with 65536;
  change (2 ^ 18) with 262144.

Ltac euclid := Z.div_mod_to_equations; lia.

(** The innermost [Z.lor] of the goal, whose right operand is below [2 ^ k]
    and whose left operand is a multiple of it, becomes a sum. *)
Ltac lor_to_add k :=
  match goal with
  | |- context [Z.lor ?a ?b] =>
      lazymatch a with
      | context [Z.lor _ _] => fail
      | _ => lazymatch b with
             | context [Z.lor _ _] => fail
             | _ => rewrite (lor_disjoint k a b); [ | lia | euclid | euclid ]
             end
      end
  end.

Lemma sextets_of_triplet (t : Z) :
  0 <= t < 16777216 ->
  Z.lor (Z.lor (Z.lor (Z.shiftl (Z.land (Z.shiftr t 18) 63) 18)
                      (Z.shiftl (Z.land (Z.shiftr t 12) 63) 12))
               (Z.shiftl (Z.land (Z.shiftr t 6) 63) 6))
        (Z.land t 63) = t.
Proof.
  intros H. bits_to_arith.
  lor_to_add 18. lor_to_add 12. lor_to_add 6. euclid.
Qed.

(** ** The base64 alphabet *)

Lemma sextet_table (i : Z) : 0 <= i < 64 -> sextetOk i = true.
Proof.
  intros H.
  assert (T : forallb sextetOk (map Z.of_nat (seq 0 64)) = true)
    by (vm_compute; reflexivity).
  rewrite forallb_forall in T. apply T.
  apply in_map_iff. exists (Z.to_nat i). split; [lia|].
  apply in_seq. lia.
Qed.

Lemma lookup_sextet (i : Z) : 0 <= i < 64 -> Base64Js.lookup i = [sextetChar i].
Proof.
  intros H. pose proof (sextet_table i H) as T. unfold sextetOk in T.
  rewrite !andb_true_iff in T. apply strictEq_spec. tauto.
Qed.

Lemma revLookup_sextet (i : Z) :
  0 <= i < 64 -> Base64Js.revLookup (sextetChar i) = i.
Proof.
  intros H. pose proof (sextet_table i H) as T. unfold sextetOk in T.
  rewrite !andb_true_iff, Z.eqb_eq in T. tauto.
Qed.

Lemma isBase64Char_sextet (i : Z) :
  0 <= i < 64 -> isBase64Char (sextetChar i) = true.
Proof.
  intros H. pose proof (sextet_table i H) as T. unfold sextetOk in T.
  rewrite !andb_true_iff in T. tauto.
Qed.

Lemma isBase64Char_not_pad (c : Z) : isBase64Char c = true -> c <> 61.
Proof. intros H ->. discriminate H. Qed.

Lemma isBase64Char_not_space (c : Z) :
  isBase64Char c = true -> isWhiteSpace c = false.
Proof.
  unfold isBase64Char, isWhiteSpace. intros H.
  repeat (rewrite orb_true_iff in H || rewrite andb_true_iff in H).
  rewrite ?Z.eqb_eq, ?Z.leb_le in H.
  repeat (apply orb_false_iff; split);
    try (apply andb_false_iff; rewrite !Z.leb_gt; lia);
    apply Z.eqb_neq; lia.
Qed.

(** ** Induction three bytes at a time *)

Lemma list_ind_by_3 {A : Type} (P : list A -> Prop) :
  P [] ->
  (forall a, P [a]) ->
  (forall a b, P [a; b]) ->
  (forall a b c rest, P rest -> P (a :: b :: c :: rest)) ->
  forall l, P l.
Proof.
  intros H0 H1 H2 H3.
  fix IH 1. intros [|a [|b [|c rest]]].
  - exact H0.
  - apply H1.
  - apply H2.
  - apply H3, IH.
Qed.

Lemma length_triplets (uint8 : list byte) :
  (List.length uint8 + match placeHolders uint8 with 0 => 0 | 1 => 1 | _ => 2 end
   = 3 * triplets uint8 + match placeHolders uint8 with 0 => 0 | _ => 3 end)%nat.
Proof.
  induction uint8 as [| a | a b | a b c rest IH] using list_ind_by_3;
    simpl in *; lia.
Qed.

Lemma placeHolders_cases (uint8 : list byte) :
  placeHolders uint8 = 0%nat \/ placeHolders uint8 = 1%nat
  \/ placeHolders uint8 = 2%nat.
Proof.
  induction uint8 as [| a | a b | a b c rest IH] using list_ind_by_3;
    simpl; auto.
Qed.

(** ** [fromByteArray] in terms of the alphabet *)

Lemma packed_range (a b c : byte) : 0 <= packed a b c < 16777216.
Proof.
  unfold packed.
  pose proof (byteValue_range a); pose proof (byteValue_range b);
    pose proof (byteValue_range c). lia.
Qed.

Lemma packed_eq (a b c : byte) :
  Z.land (Z.shiftl (byteValue a) 16) 16711680
  + Z.land (Z.shiftl (byteValue b) 8) 65280
  + Z.land (byteValue c) 255 = packed a b c.
Proof.
  pose proof (byteValue_range a); pose proof (byteValue_range b);
    pose proof (byteValue_range c).
  change 16711680 with (Z.shiftl 255 16). change 65280 with (Z.shiftl 255 8).
  rewrite <- !Z.shiftl_land. unfold packed. bits_to_arith.
  rewrite !Z.mod_small by lia. reflexivity.
Qed.

Lemma land_63_range (x : Z) : 0 <= Z.land x 63 < 64.
Proof.
  change 63 with (Z.ones 6). rewrite Z.land_ones by lia.
  apply Z.mod_pos_bound. lia.
Qed.

Lemma tripletToBase64_chars (t : Z) : Base64Js.tripletToBase64 t = quadChars t.
Proof.
  unfold Base64Js.tripletToBase64, quadChars.
  rewrite !lookup_sextet by apply land_63_range. reflexivity.
Qed.

Lemma fromByteArray_triplet (a b c : byte) (rest : list byte) :
  Base64Js.fromByteArray (a :: b :: c :: rest)
  = quadChars (packed a b c) ++ Base64Js.fromByteArray rest.
Proof.
  cbn [Base64Js.fromByteArray].
  rewrite packed_eq, tripletToBase64_chars. reflexivity.
Qed.

Lemma fromByteArray_one (a : byte) :
  Base64Js.fromByteArray [a]
  = [sextetChar (Z.shiftr (byteValue a) 2);
     sextetChar (Z.land (Z.shiftl (byteValue a) 4) 63); 61; 61].
Proof.
  pose proof (byteValue_range a) as H.
  cbn [Base64Js.fromByteArray].
  rewrite (lookup_sextet (Z.shiftr _ _)), lookup_sextet; [reflexivity | |].
  - apply land_63_range.
  - rewrite Z.shiftr_div_pow2 by lia. change (2 ^ 2) with 4. euclid.
Qed.

Lemma fromByteArray_two (a b : byte) :
  let t := Z.shiftl (byteValue a) 8 + byteValue b in
  Base64Js.fromByteArray [a; b]
  = [sextetChar (Z.shiftr t 10);
     sextetChar (Z.land (Z.shiftr t 4) 63);
     sextetChar (Z.land (Z.shiftl t 2) 63); 61].
Proof.
  pose proof (byteValue_range a) as Ha. pose proof (byteValue_range b) as Hb.
  intros t. cbn [Base64Js.fromByteArray]. fold t.
  rewrite (lookup_sextet (Z.shiftr _ _)), !lookup_sextet;
    [reflexivity | | | ]; try apply land_63_range.
  subst t. rewrite Z.shiftr_div_pow2, Z.shiftl_mul_pow2 by lia.
  change (2 ^ 10) with 1024. change (2 ^ 8) with 256. euclid.
Qed.

(** The encoding is some alphabet characters followed by the placeholders. *)
Lemma fromByteArray_shape (uint8 : list byte) :
  exists data : JsString,
    Base64Js.fromByteArray uint8 = data ++ repeat 61 (placeHolders uint8)
    /\ forallb isBase64Char data = true
    /\ (List.length data + placeHolders uint8 =
        4 * triplets uint8 + match placeHolders uint8 with 0 => 0 | _ => 4 end)%nat.
Proof.
  induction uint8 as [| a | a b | a b c rest IH] using list_ind_by_3.
  - exists []. repeat split.
  - pose proof (byteValue_range a) as Ha.
    rewrite fromByteArray_one.
    eexists [_; _]. split; [reflexivity|]. split; [|reflexivity].
    cbn [forallb]. rewrite !isBase64Char_sextet; [reflexivity | |].
    + apply land_63_range.
    + rewrite Z.shiftr_div_pow2 by lia. change (2 ^ 2) with 4. euclid.
  - pose proof (byteValue_range a) as Ha. pose proof (byteValue_range b) as Hb.
    rewrite fromByteArray_two.
    eexists [_; _; _]. split; [reflexivity|]. split; [|reflexivity].
    cbn [forallb]. rewrite !isBase64Char_sextet; [reflexivity | | |];
      try apply land_63_range.
    rewrite Z.shiftr_div_pow2, Z.shiftl_mul_pow2 by lia.
    change (2 ^ 10) with 1024. change (2 ^ 8) with 256. euclid.
  - destruct IH as (data & E & Hd & Hl).
    rewrite fromByteArray_triplet, E.
    exists (quadChars (packed a b c) ++ data). split; [|split].
    + cbn [placeHolders]. rewrite app_assoc. reflexivity.
    + rewrite forallb_app, Hd, andb_true_r. unfold quadChars. cbn [forallb].
      rewrite !isBase64Char_sextet by apply land_63_range. reflexivity.
    + cbn [placeHolders triplets]. rewrite length_app.
      unfold quadChars. cbn [List.length]. lia.
Qed.

(** ** [toByteArray] undoes [fromByteArray] *)

Lemma revAt_app (pre x : JsString) (j : nat) :
  Base64Js.revAt (pre ++ x) (List.length pre + j) = Base64Js.revAt x j.
Proof.
  unfold Base64Js.revAt. rewrite nth_error_app2 by lia.
  replace (List.length pre + j - List.length pre)%nat with j by lia.
  reflexivity.
Qed.

Lemma decodeQuad_app (pre x : JsString) (j : nat) :
  Base64Js.decodeQuad (pre ++ x) (List.length pre + j) = Base64Js.decodeQuad x j.
Proof.
  unfold Base64Js.decodeQuad.
  rewrite <- !Nat.add_assoc, !revAt_app. reflexivity.
Qed.

Lemma decodeTail_app (pre x : JsString) (j : nat) (p : Z) :
  Base64Js.decodeTail (pre ++ x) (List.length pre + j) p
  = Base64Js.decodeTail x j p.
Proof.
  unfold Base64Js.decodeTail.
  rewrite <- !Nat.add_assoc, !revAt_app. reflexivity.
Qed.

Lemma decodeQuad_packed (a b c : byte) (rest : JsString) :
  Base64Js.decodeQuad (quadChars (packed a b c) ++ rest) 0 = [a; b; c].
Proof.
  pose proof (byteValue_range a) as Ha. pose proof (byteValue_range b) as Hb.
  pose proof (byteValue_range c) as Hc.
  unfold Base64Js.decodeQuad, Base64Js.revAt, quadChars.
  cbn [app nth_error Nat.add].
  rewrite !revLookup_sextet by apply land_63_range.
  rewrite sextets_of_triplet by apply packed_range.
  unfold packed. bits_to_arith.
  replace ((byteValue a * 65536 + byteValue b * 256 + byteValue c) / 65536
           mod 256) with (byteValue a) by euclid.
  replace ((byteValue a * 65536 + byteValue b * 256 + byteValue c) / 256
           mod 256) with (byteValue b) by euclid.
  replace ((byteValue a * 65536 + byteValue b * 256 + byteValue c) mod 256)
    with (byteValue c) by euclid.
  rewrite !ToUint8_byteValue. reflexivity.
Qed.

Lemma decodeTail_one (a : byte) :
  Base64Js.decodeTail (Base64Js.fromByteArray [a]) 0 2 = [a].
Proof.
  pose proof (byteValue_range a) as Ha.
  rewrite fromByteArray_one.
  unfold Base64Js.decodeTail, Base64Js.revAt. cbn [nth_error Nat.add Z.eqb Pos.eqb app].
  rewrite !revLookup_sextet;
    [ | apply land_63_range
      | rewrite Z.shiftr_div_pow2 by lia; change (2 ^ 2) with 4; euclid ].
  bits_to_arith. lor_to_add 2.
  replace ((byteValue a / 4 * 4 + (byteValue a * 16) mod 64 / 16) mod 256)
    with (byteValue a) by euclid.
  rewrite ToUint8_byteValue. reflexivity.
Qed.

Lemma decodeTail_two (a b : byte) :
  Base64Js.decodeTail (Base64Js.fromByteArray [a; b]) 0 1 = [a; b].
Proof.
  pose proof (byteValue_range a) as Ha. pose proof (byteValue_range b) as Hb.
  rewrite fromByteArray_two.
  unfold Base64Js.decodeTail, Base64Js.revAt. cbn [nth_error Nat.add Z.eqb Pos.eqb app].
  rewrite !revLookup_sextet;
    [ | apply land_63_range | apply land_63_range
      | rewrite Z.shiftr_div_pow2, Z.shiftl_mul_pow2 by lia;
        change (2 ^ 10) with 1024; change (2 ^ 8) with 256; euclid ].
  bits_to_arith. lor_to_add 10. lor_to_add 4.
  set (t := byteValue a * 256 + byteValue b).
  replace ((t / 1024 * 1024 + (t / 16) mod 64 * 16 + (t * 4) mod 64 / 4) / 256
           mod 256) with (byteValue a) by (subst t; euclid).
  replace ((t / 1024 * 1024 + (t / 16) mod 64 * 16 + (t * 4) mod 64 / 4)
           mod 256) with (byteValue b) by (subst t; euclid).
  rewrite !ToUint8_byteValue. reflexivity.
Qed.

(** The loop and the tail of [toByteArray], started after [k] quadruplets,
    give back the bytes. *)
Lemma decode_fromByteArray (uint8 : list byte) :
  forall (pre : JsString) (k : nat),
    List.length pre = (4 * k)%nat ->
    flat_map (Base64Js.decodeQuad (pre ++ Base64Js.fromByteArray uint8))
             (map (fun j => 4 * j)%nat (seq k (triplets uint8)))
    ++ Base64Js.decodeTail (pre ++ Base64Js.fromByteArray uint8)
         (4 * (k + triplets uint8)) (Z.of_nat (placeHolders uint8))
    = uint8.
Proof.
  induction uint8 as [| a | a b | a b c rest IH] using list_ind_by_3;
    intros pre k Hpre; cbn [triplets placeHolders seq map flat_map app].
  - reflexivity.
  - rewrite Nat.add_0_r, <- Hpre, <- (Nat.add_0_r (List.length pre)).
    rewrite decodeTail_app. apply decodeTail_one.
  - rewrite Nat.add_0_r, <- Hpre, <- (Nat.add_0_r (List.length pre)).
    rewrite decodeTail_app. apply decodeTail_two.
  - rewrite fromByteArray_triplet.
    rewrite <- Hpre at 1. rewrite <- (Nat.add_0_r (List.length pre)) at 1.
    rewrite decodeQuad_app, <- app_assoc, decodeQuad_packed.
    cbn [app]. do 3 f_equal.
    rewrite !app_assoc.
    replace (4 * (k + S (triplets rest)))%nat
      with (4 * (S k + triplets rest))%nat by lia.
    apply IH. rewrite length_app. unfold quadChars. cbn [List.length]. lia.
Qed.

Lemma indexOf_pad_after_data (data rest : JsString) :
  forallb isBase64Char data = true ->
  indexOf 61 (data ++ rest)
  = option_map (Nat.add (List.length data)) (indexOf 61 rest).
Proof.
  intros H. induction data as [|c data IH]; cbn [app indexOf List.length].
  - destruct (indexOf 61 rest); reflexivity.
  - cbn [forallb] in H. apply andb_true_iff in H as [Hc Hd].
    apply isBase64Char_not_pad, Z.eqb_neq in Hc. rewrite Hc, (IH Hd).
    destruct (indexOf 61 rest); reflexivity.
Qed.

Lemma filled_exact (n : Z) (writes : list byte) :
  n = Z.of_nat (List.length writes) -> Base64Js.filled n writes = writes.
Proof.
  intros ->. unfold Base64Js.filled. rewrite Nat2Z.id.
  rewrite firstn_app, firstn_all, Nat.sub_diag. cbn [firstn].
  apply app_nil_r.
Qed.

Lemma getLens_fromByteArray (uint8 : list byte) :
  Base64Js.getLens (Base64Js.fromByteArray uint8)
  = Return (Z.of_nat (4 * triplets uint8
                      + tailChars (placeHolders uint8)),
            Z.of_nat (placeHolders uint8)).
Proof.
  destruct (fromByteArray_shape uint8) as (data & E & Hd & Hl).
  unfold Base64Js.getLens. rewrite E, length_app, repeat_length.
  rewrite (indexOf_pad_after_data _ _ Hd).
  destruct (placeHolders_cases uint8) as [P | [P | P]]; rewrite P in *;
    cbn [repeat indexOf option_map Z.eqb Pos.eqb tailChars].
  - replace (List.length data + 0)%nat with (4 * triplets uint8)%nat by lia.
    replace (0 <? Z.of_nat (4 * triplets uint8) mod 4) with false
      by (symmetry; apply Z.ltb_ge; euclid).
    rewrite Z.eqb_refl. do 2 f_equal. lia.
  - replace (0 <? Z.of_nat (List.length data + 1) mod 4) with false
      by (symmetry; apply Z.ltb_ge; euclid).
    replace (Z.of_nat (List.length data + 0) =? Z.of_nat (List.length data + 1))
      with false by (symmetry; apply Z.eqb_neq; lia).
    f_equal. f_equal; [lia | euclid].
  - replace (0 <? Z.of_nat (List.length data + 2) mod 4) with false
      by (symmetry; apply Z.ltb_ge; euclid).
    replace (Z.of_nat (List.length data + 0) =? Z.of_nat (List.length data + 2))
      with false by (symmetry; apply Z.eqb_neq; lia).
    f_equal. f_equal; [lia | euclid].
Qed.

Theorem toByteArray_fromByteArray (uint8 : list byte) :
  Base64Js.toByteArray (Base64Js.fromByteArray uint8) = Return uint8.
Proof.
  unfold Base64Js.toByteArray. rewrite getLens_fromByteArray.
  cbn [bind]. f_equal.
  pose proof (length_triplets uint8) as HL.
  pose proof (decode_fromByteArray uint8 [] 0 eq_refl) as D.
  cbn [app Nat.add] in D.
  set (T := triplets uint8) in *.
  assert (I : Base64Js.quadIndices
                (if 0 <? Z.of_nat (placeHolders uint8)
                 then Z.of_nat (4 * T + tailChars (placeHolders uint8))%nat - 4
                 else Z.of_nat (4 * T + tailChars (placeHolders uint8))%nat)
              = map (fun j => 4 * j)%nat (seq 0 T)).
  { unfold Base64Js.quadIndices. do 2 f_equal.
    destruct (placeHolders_cases uint8) as [P | [P | P]]; rewrite P;
      cbn [Z.of_nat Z.ltb Z.compare tailChars]; euclid. }
  rewrite I, length_map, length_seq, D.
  apply filled_exact. unfold Base64Js._byteLength.
  clear D I. clearbody T.
  destruct (placeHolders_cases uint8) as [P | [P | P]]; rewrite P in *;
    cbn [tailChars] in *; euclid.
Qed.

(** ** [base64clean] *)

Lemma splitHead_data (data rest : JsString) :
  forallb isBase64Char data = true ->
  splitHead 61 (data ++ rest) = data ++ splitHead 61 rest.
Proof.
  intros H. induction data as [|c data IH]; cbn [app splitHead]; [reflexivity|].
  cbn [forallb] in H. apply andb_true_iff in H as [Hc Hd].
  apply isBase64Char_not_pad, Z.eqb_neq in Hc. rewrite Hc, (IH Hd).
  reflexivity.
Qed.

Lemma splitHead_pad (p : nat) : splitHead 61 (repeat 61 p) = [].
Proof. destruct p; reflexivity. Qed.

Lemma trimStart_data (data : JsString) :
  forallb isBase64Char data = true -> trimStart data = data.
Proof.
  destruct data as [|c data]; [reflexivity|]. cbn [forallb trimStart].
  intros H. apply andb_true_iff in H as [Hc _].
  rewrite (isBase64Char_not_space _ Hc). reflexivity.
Qed.

Lemma forallb_rev {A : Type} (f : A -> bool) (l : list A) :
  forallb f l = true -> forallb f (rev l) = true.
Proof.
  rewrite !forallb_forall. intros H x Hx. apply H, in_rev, Hx.
Qed.

Lemma trim_data (data : JsString) :
  forallb isBase64Char data = true -> trim data = data.
Proof.
  intros H. unfold trim, trimEnd.
  rewrite (trimStart_data _ H), (trimStart_data _ (forallb_rev _ _ H)).
  apply rev_involutive.
Qed.

Lemma filter_all {A : Type} (f : A -> bool) (l : list A) :
  forallb f l = true -> filter f l = l.
Proof.
  induction l as [|x l IH]; cbn [forallb filter]; [reflexivity|].
  intros H. apply andb_true_iff in H as [Hx Hl].
  rewrite Hx, (IH Hl). reflexivity.
Qed.

(** A canonical encoding passes through [base64clean] unchanged. *)
Lemma base64clean_fromByteArray (uint8 : list byte) :
  base64clean (Base64Js.fromByteArray uint8) = Base64Js.fromByteArray uint8.
Proof.
  destruct (fromByteArray_shape uint8) as (data & E & Hd & Hl).
  unfold base64clean.
  rewrite E, (splitHead_data _ _ Hd), splitHead_pad, app_nil_r.
  rewrite (trim_data _ Hd), (filter_all _ _ Hd).
  destruct (placeHolders_cases uint8) as [P | [P | P]]; rewrite P in *;
    cbn [repeat].
  - destruct (Z.ltb_spec (Z.of_nat (List.length data)) 2) as [L | L].
    + destruct data as [|c data]; [reflexivity|]. cbn [List.length] in *. lia.
    + cbn [padToQuad].
      replace (Z.of_nat (List.length data) mod 4 =? 0) with true
        by (symmetry; apply Z.eqb_eq; euclid).
      symmetry; apply app_nil_r.
  - destruct (Z.ltb_spec (Z.of_nat (List.length data)) 2) as [L | L]; [lia|].
    cbn [padToQuad].
    replace (Z.of_nat (List.length data) mod 4 =? 0) with false
      by (symmetry; apply Z.eqb_neq; euclid).
    rewrite length_app. cbn [List.length].
    replace (Z.of_nat (List.length data + 1) mod 4 =? 0) with true
      by (symmetry; apply Z.eqb_eq; euclid).
    reflexivity.
  - destruct (Z.ltb_spec (Z.of_nat (List.length data)) 2) as [L | L]; [lia|].
    cbn [padToQuad].
    replace (Z.of_nat (List.length data) mod 4 =? 0) with false
      by (symmetry; apply Z.eqb_neq; euclid).
    rewrite !length_app. cbn [List.length].
    replace (Z.of_nat (List.length data + 1) mod 4 =? 0) with false
      by (symmetry; apply Z.eqb_neq; euclid).
    replace (Z.of_nat (List.length data + 1 + 1) mod 4 =? 0) with true
      by (symmetry; apply Z.eqb_eq; euclid).
    rewrite <- app_assoc. reflexivity.
Qed.

(** Whatever the input, [base64clean] returns a string whose length is a
    multiple of four, so [toByteArray] does not throw on it. *)
Lemma padToQuad_length (s : JsString) :
  Z.of_nat (List.length (padToQuad 3 s)) mod 4 = 0.
Proof.
  cbn [padToQuad].
  repeat match goal with
         | |- context [?n mod 4 =? 0] =>
             destruct (Z.eqb_spec (n mod 4) 0); [assumption|]
         end.
  rewrite !length_app in *. cbn [List.length] in *. euclid.
Qed.

Lemma base64clean_length (s : JsString) :
  Z.of_nat (List.length (base64clean s)) mod 4 = 0.
Proof.
  unfold base64clean.
  destruct (_ <? 2); [reflexivity | apply padToQuad_length].
Qed.

Lemma toByteArray_returns (b64 : JsString) :
  Z.of_nat (List.length b64) mod 4 = 0 ->
  exists bytes, Base64Js.toByteArray b64 = Return bytes.
Proof.
  intros H. unfold Base64Js.toByteArray, Base64Js.getLens.
  rewrite H. cbn [Z.ltb Z.compare bind]. eexists; reflexivity.
Qed.

(** ** [Buffer.from] and [toString] for base64 *)

Theorem from_base64_returns (s : JsString) :
  exists buf, toBuffer s base64 = Return buf.
Proof.
  unfold toBuffer, BufferJs.from, base64ToBytes.
  apply toByteArray_returns, base64clean_length.
Qed.

Theorem from_toString_base64 (buf : Buffer) :
  toBuffer (toString buf base64) base64 = Return buf.
Proof.
  unfold toBuffer, BufferJs.from, toString, base64ToBytes.
  rewrite base64clean_fromByteArray. apply toByteArray_fromByteArray.
Qed.

(** ** [Buffer.from] and [toString] for hex *)

Lemma parseInt16_hexSliceLookup (b : byte) :
  parseInt16 (hexSliceLookup b) = Some (byteValue b).
Proof. destruct b; reflexivity. Qed.

Lemma hexSlice_length (buf : Buffer) :
  List.length (hexSlice buf) = (2 * List.length buf)%nat.
Proof.
  induction buf as [|b buf IH]; [reflexivity|].
  unfold hexSlice in *. cbn [flat_map]. rewrite length_app, IH.
  cbn [hexSliceLookup List.length]. lia.
Qed.

Lemma substr2_app (pre x : JsString) (i : nat) :
  List.length pre = (2 * i)%nat ->
  substr2 (pre ++ x) (i * 2) = firstn 2 x.
Proof.
  intros H. unfold substr2.
  replace (i * 2)%nat with (List.length pre + 0)%nat by lia.
  rewrite skipn_app, skipn_all2 by lia.
  replace (List.length pre + 0 - List.length pre)%nat with 0%nat by lia.
  reflexivity.
Qed.

Lemma hexWrite_hexSlice (buf : Buffer) :
  forall (pre : JsString) (i : nat),
    List.length pre = (2 * i)%nat ->
    hexWrite (List.length buf) (pre ++ hexSlice buf) i = buf.
Proof.
  induction buf as [|b buf IH]; intros pre i Hpre; [reflexivity|].
  cbn [List.length hexWrite]. unfold hexSlice. cbn [flat_map].
  rewrite (substr2_app _ _ _ Hpre).
  change (firstn 2 (hexSliceLookup b ++ flat_map hexSliceLookup buf))
    with (hexSliceLookup b).
  rewrite parseInt16_hexSliceLookup, ToUint8_byteValue. f_equal.
  rewrite app_assoc. apply IH.
  rewrite length_app. cbn [hexSliceLookup List.length]. lia.
Qed.

Theorem from_toString_hex (buf : Buffer) :
  toBuffer (toString buf hex) hex = Return buf.
Proof.
  unfold toBuffer. cbn [BufferJs.from toString]. apply f_equal.
  rewrite hexSlice_length.
  replace (2 * List.length buf / 2)%nat with (List.length buf)
    by (symmetry; rewrite Nat.mul_comm; apply Nat.div_mul; lia).
  apply (hexWrite_hexSlice buf [] 0 eq_refl).
Qed.

(** *** Strings of hexadecimal digits *)

Lemma isLowerHexDigit_alphabet (c : Z) :
  isLowerHexDigit c = true -> In c hexAlphabet.
Proof.
  unfold isLowerHexDigit. rewrite orb_true_iff, !andb_true_iff, !Z.leb_le.
  intros H.
  assert (E : c = 48 \/ c = 49 \/ c = 50 \/ c = 51 \/ c = 52 \/ c = 53
              \/ c = 54 \/ c = 55 \/ c = 56 \/ c = 57 \/ c = 97 \/ c = 98
              \/ c = 99 \/ c = 100 \/ c = 101 \/ c = 102) by lia.
  cbv [hexAlphabet str list_ascii_of_string map N_of_ascii N_of_digits
       Z.of_N N.add N.mul Pos.add Pos.mul Pos.succ In].
  intuition auto.
Qed.

Lemma hexSliceLookup_byteOfDigits (h l : Z) :
  isLowerHexDigit h = true -> isLowerHexDigit l = true ->
  hexSliceLookup (byteOfDigits h l) = [h; l].
Proof.
  intros Hh Hl.
  assert (T : forallb (fun x => forallb (fun y =>
                strictEq (hexSliceLookup (byteOfDigits x y)) [x; y])
                hexAlphabet) hexAlphabet = true) by (vm_compute; reflexivity).
  rewrite forallb_forall in T.
  specialize (T h (isLowerHexDigit_alphabet h Hh)).
  rewrite forallb_forall in T.
  apply strictEq_spec, T, isLowerHexDigit_alphabet, Hl.
Qed.

Lemma list_ind_by_2 {A : Type} (P : list A -> Prop) :
  P [] ->
  (forall a, P [a]) ->
  (forall a b rest, P rest -> P (a :: b :: rest)) ->
  forall l, P l.
Proof.
  intros H0 H1 H2.
  fix IH 1. intros [|a [|b rest]].
  - exact H0.
  - apply H1.
  - apply H2, IH.
Qed.

(** The lower-case hex strings are exactly what [toString(hex)] produces. *)
Lemma isLowerHexString_hexSlice (buf : Buffer) :
  isLowerHexString (hexSlice buf) = true.
Proof.
  unfold isLowerHexString. apply andb_true_iff. split.
  - rewrite hexSlice_length. apply Nat.even_spec. exists (List.length buf).
    reflexivity.
  - induction buf as [|b buf IH]; [reflexivity|].
    unfold hexSlice in *. cbn [flat_map]. rewrite forallb_app, IH, andb_true_r.
    destruct b; reflexivity.
Qed.

Lemma isLowerHexString_image (s : JsString) :
  isLowerHexString s = true -> exists buf, s = hexSlice buf.
Proof.
  unfold isLowerHexString.
  induction s as [| h | h l rest IH] using list_ind_by_2; intros H.
  - exists []. reflexivity.
  - discriminate H.
  - cbn [List.length Nat.even forallb] in H.
    rewrite !andb_true_iff in H. destruct H as (Hev & Hh & Hl & Hrest).
    destruct IH as [buf ->]; [rewrite Hev, Hrest; reflexivity|].
    exists (byteOfDigits h l :: buf). unfold hexSlice. cbn [flat_map].
    rewrite (hexSliceLookup_byteOfDigits h l Hh Hl). reflexivity.
Qed.

Lemma isLowerHexString_iff (s : JsString) :
  isLowerHexString s = true <-> exists buf, s = toString buf hex.
Proof.
  split; [apply isLowerHexString_image|].
  intros [buf ->]. apply isLowerHexString_hexSlice.
Qed.

(** ** Canonical base64 texts *)

Lemma forallb_Z_range (P : Z -> bool) (lo : Z) (n : nat) :
  forallb P (map (fun k => lo + Z.of_nat k) (seq 0 n)) = true ->
  forall c, lo <= c < lo + Z.of_nat n -> P c = true.
Proof.
  intros T c H. rewrite forallb_forall in T. apply T.
  apply in_map_iff. exists (Z.to_nat (c - lo)). split; [lia|].
  apply in_seq. lia.
Qed.

Lemma isStandardChar_range (c : Z) : isStandardChar c = true -> 43 <= c < 123.
Proof.
  unfold isStandardChar.
  rewrite !orb_true_iff, !andb_true_iff, !Z.leb_le, !Z.eqb_eq. lia.
Qed.

Lemma standard_sextet (c : Z) :
  isStandardChar c = true ->
  0 <= sextetValue c < 64 /\ sextetChar (sextetValue c) = c.
Proof.
  intros H.
  assert (T : standardOk c = true).
  { apply (forallb_Z_range standardOk 43 80); [vm_compute; reflexivity|].
    apply isStandardChar_range in H. lia. }
  unfold standardOk in T. rewrite H in T. cbn [implb] in T.
  rewrite !andb_true_iff, Z.leb_le, Z.ltb_lt, Z.eqb_eq in T. tauto.
Qed.

Lemma sextet_standard (i : Z) :
  0 <= i < 64 ->
  isStandardChar (sextetChar i) = true /\ sextetValue (sextetChar i) = i.
Proof.
  intros H.
  assert (T : sextetStandard i = true).
  { apply (forallb_Z_range sextetStandard 0 64); [vm_compute; reflexivity|].
    lia. }
  unfold sextetStandard in T. rewrite andb_true_iff, Z.eqb_eq in T. exact T.
Qed.

Lemma isStandardChar_not_pad (c : Z) :
  isStandardChar c = true -> (c =? 61) = false.
Proof.
  intros H. apply Z.eqb_neq. intros ->. discriminate H.
Qed.

Lemma isStandardChar_quadChars (t : Z) :
  forallb isStandardChar (quadChars t) = true.
Proof.
  unfold quadChars. cbn [forallb].
  rewrite !(proj1 (sextet_standard _ (land_63_range _))). reflexivity.
Qed.

Lemma isCanonicalBase64_fromByteArray (buf : Buffer) :
  isCanonicalBase64 (Base64Js.fromByteArray buf) = true.
Proof.
  induction buf as [| a | a b | a b c rest IH] using list_ind_by_3.
  - reflexivity.
  - pose proof (byteValue_range a) as Ha.
    rewrite fromByteArray_one. cbn [isCanonicalBase64 Z.eqb Pos.eqb].
    assert (R0 : 0 <= Z.shiftr (byteValue a) 2 < 64)
      by (rewrite Z.shiftr_div_pow2 by lia; change (2 ^ 2) with 4; euclid).
    pose proof (land_63_range (Z.shiftl (byteValue a) 4)) as R1.
    rewrite (proj1 (sextet_standard _ R0)).
    rewrite (proj1 (sextet_standard _ R1)), (proj2 (sextet_standard _ R1)).
    cbn [andb]. apply Z.eqb_eq. bits_to_arith. euclid.
  - pose proof (byteValue_range a) as Ha. pose proof (byteValue_range b) as Hb.
    rewrite fromByteArray_two. cbv zeta.
    set (t := Z.shiftl (byteValue a) 8 + byteValue b).
    assert (Ht : t = byteValue a * 256 + byteValue b)
      by (subst t; rewrite Z.shiftl_mul_pow2 by lia; reflexivity).
    assert (R0 : 0 <= Z.shiftr t 10 < 64)
      by (rewrite Z.shiftr_div_pow2 by lia; change (2 ^ 10) with 1024; euclid).
    pose proof (land_63_range (Z.shiftr t 4)) as R1.
    pose proof (land_63_range (Z.shiftl t 2)) as R2.
    cbn [isCanonicalBase64 Z.eqb Pos.eqb].
    rewrite (proj1 (sextet_standard _ R0)), (proj1 (sextet_standard _ R1)).
    rewrite (proj1 (sextet_standard _ R2)), (proj2 (sextet_standard _ R2)).
    rewrite (isStandardChar_not_pad _ (proj1 (sextet_standard _ R2))).
    cbn [andb]. apply Z.eqb_eq. bits_to_arith. euclid.
  - rewrite fromByteArray_triplet.
    pose proof (isStandardChar_quadChars (packed a b c)) as Q.
    unfold quadChars in *. cbn [forallb] in Q. rewrite !andb_true_iff in Q.
    destruct Q as (Q0 & Q1 & Q2 & Q3 & _).
    cbn [app isCanonicalBase64].
    rewrite Q0, Q1, Q2, Q3, (isStandardChar_not_pad _ Q3), IH. reflexivity.
Qed.

Lemma list_ind_by_4 {A : Type} (P : list A -> Prop) :
  P [] ->
  (forall a, P [a]) ->
  (forall a b, P [a; b]) ->
  (forall a b c, P [a; b; c]) ->
  (forall a b c d rest, P rest -> P (a :: b :: c :: d :: rest)) ->
  forall l, P l.
Proof.
  intros H0 H1 H2 H3 H4.
  fix IH 1. intros [|a [|b [|c [|d rest]]]].
  - exact H0.
  - apply H1.
  - apply H2.
  - apply H3.
  - apply H4, IH.
Qed.

(** Four alphabet characters are the encoding of three bytes. *)
Lemma quad_is_triplet (c0 c1 c2 c3 : Z) :
  isStandardChar c0 = true -> isStandardChar c1 = true ->
  isStandardChar c2 = true -> isStandardChar c3 = true ->
  exists a b c, quadChars (packed a b c) = [c0; c1; c2; c3].
Proof.
  intros H0 H1 H2 H3.
  destruct (standard_sextet c0 H0) as [R0 E0].
  destruct (standard_sextet c1 H1) as [R1 E1].
  destruct (standard_sextet c2 H2) as [R2 E2].
  destruct (standard_sextet c3 H3) as [R3 E3].
  set (i0 := sextetValue c0) in *. set (i1 := sextetValue c1) in *.
  set (i2 := sextetValue c2) in *. set (i3 := sextetValue c3) in *.
  set (t := i0 * 262144 + i1 * 4096 + i2 * 64 + i3).
  exists (ToUint8 (t / 65536)), (ToUint8 (t / 256 mod 256)), (ToUint8 (t mod 256)).
  unfold packed.
  rewrite !byteValue_ToUint8 by (subst t; euclid).
  replace (t / 65536 * 65536 + t / 256 mod 256 * 256 + t mod 256) with t
    by euclid.
  unfold quadChars. bits_to_arith.
  replace ((t / 262144) mod 64) with i0 by (subst t; euclid).
  replace ((t / 4096) mod 64) with i1 by (subst t; euclid).
  replace ((t / 64) mod 64) with i2 by (subst t; euclid).
  replace (t mod 64) with i3 by (subst t; euclid).
  rewrite E0, E1, E2, E3. reflexivity.
Qed.

(** Two alphabet characters and two placeholders are the encoding of one
    byte when the four low bits of the second character are zero. *)
Lemma pair_is_byte (c0 c1 : Z) :
  isStandardChar c0 = true -> isStandardChar c1 = true ->
  sextetValue c1 mod 16 = 0 ->
  exists a, Base64Js.fromByteArray [a] = [c0; c1; 61; 61].
Proof.
  intros H0 H1 Z1.
  destruct (standard_sextet c0 H0) as [R0 E0].
  destruct (standard_sextet c1 H1) as [R1 E1].
  set (i0 := sextetValue c0) in *. set (i1 := sextetValue c1) in *.
  exists (ToUint8 (i0 * 4 + i1 / 16)).
  rewrite fromByteArray_one, byteValue_ToUint8 by euclid.
  bits_to_arith.
  replace ((i0 * 4 + i1 / 16) / 4) with i0 by euclid.
  replace (((i0 * 4 + i1 / 16) * 16) mod 64) with i1 by euclid.
  rewrite E0, E1. reflexivity.
Qed.

(** Three alphabet characters and a placeholder are the encoding of two
    bytes when the two low bits of the third character are zero. *)
Lemma triple_is_bytes (c0 c1 c2 : Z) :
  isStandardChar c0 = true -> isStandardChar c1 = true ->
  isStandardChar c2 = true -> sextetValue c2 mod 4 = 0 ->
  exists a b, Base64Js.fromByteArray [a; b] = [c0; c1; c2; 61].
Proof.
  intros H0 H1 H2 Z2.
  destruct (standard_sextet c0 H0) as [R0 E0].
  destruct (standard_sextet c1 H1) as [R1 E1].
  destruct (standard_sextet c2 H2) as [R2 E2].
  set (i0 := sextetValue c0) in *. set (i1 := sextetValue c1) in *.
  set (i2 := sextetValue c2) in *.
  set (t := i0 * 1024 + i1 * 16 + i2 / 4).
  exists (ToUint8 (t / 256)), (ToUint8 (t mod 256)).
  rewrite fromByteArray_two. cbv zeta.
  rewrite !byteValue_ToUint8 by (subst t; euclid).
  bits_to_arith.
  replace (t / 256 * 256 + t mod 256) with t by euclid.
  replace (t / 1024) with i0 by (subst t; euclid).
  replace ((t / 16) mod 64) with i1 by (subst t; euclid).
  replace ((t * 4) mod 64) with i2 by (subst t; euclid).
  rewrite E0, E1, E2. reflexivity.
Qed.

Lemma isCanonicalBase64_image (s : JsString) :
  isCanonicalBase64 s = true -> exists buf, s = Base64Js.fromByteArray buf.
Proof.
  induction s as [| a | a b | a b c | c0 c1 c2 c3 rest IH] using list_ind_by_4;
    try discriminate.
  - exists []. reflexivity.
  - cbn [isCanonicalBase64]. rewrite !andb_true_iff.
    intros [[H0 H1] H].
    destruct (Z.eqb_spec c3 61) as [-> | N3].
    + destruct rest as [|x rest]; [|discriminate H].
      destruct (Z.eqb_spec c2 61) as [-> | N2].
      * apply Z.eqb_eq in H.
        destruct (pair_is_byte c0 c1 H0 H1 H) as [a E].
        exists [a]. symmetry. exact E.
      * rewrite andb_true_iff, Z.eqb_eq in H. destruct H as [H2 Z2].
        destruct (triple_is_bytes c0 c1 c2 H0 H1 H2 Z2) as (a & b & E).
        exists [a; b]. symmetry. exact E.
    + rewrite !andb_true_iff in H. destruct H as [[H2 H3] Hrest].
      destruct (IH Hrest) as [buf ->].
      destruct (quad_is_triplet c0 c1 c2 c3 H0 H1 H2 H3) as (a & b & c & E).
      exists (a :: b :: c :: buf). rewrite fromByteArray_triplet, E.
      reflexivity.
Qed.

(** The canonical texts are exactly what [toString('base64')] produces. *)
Theorem isCanonicalBase64_iff (s : JsString) :
  isCanonicalBase64 s = true <-> canonicalBase64 s.
Proof.
  unfold canonicalBase64, toString. split.
  - apply isCanonicalBase64_image.
  - intros [buf ->]. apply isCanonicalBase64_fromByteArray.
Qed.

(** ** The round-trip checks of [schemaAsBuffer] and [messageAsBuffer] *)

Lemma schemaAsBuffer_canonical (buf : Buffer) :
  schemaAsBuffer (toString buf base64) = Return buf.
Proof.
  unfold schemaAsBuffer. rewrite from_toString_base64. cbn [bind].
  rewrite strictEq_refl. reflexivity.
Qed.

Lemma schemaAsBuffer_not_canonical (s : JsString) :
  ~ canonicalBase64 s -> schemaAsBuffer s = Throw (notValidBase64 s).
Proof.
  intros H. unfold schemaAsBuffer.
  destruct (from_base64_returns s) as [buf ->]. cbn [bind].
  rewrite strictEq_neq; [reflexivity|].
  intros E. apply H. exists buf. symmetry. exact E.
Qed.

Lemma schemaAsBuffer_returns (s : JsString) (buf : Buffer) :
  schemaAsBuffer s = Return buf -> toString buf base64 = s.
Proof.
  unfold schemaAsBuffer. destruct (toBuffer s base64) as [r|e]; cbn [bind];
    [|discriminate].
  destruct (strictEq (toString r base64) s) eqn:E; cbn [negb];
    [|discriminate].
  intros [= <-]. apply strictEq_spec, E.
Qed.

Lemma messageAsBuffer_image (buf : Buffer) :
  messageAsBuffer (toString buf hex) = Return buf.
Proof.
  unfold messageAsBuffer. rewrite from_toString_hex. cbn [bind].
  rewrite strictEq_refl. reflexivity.
Qed.

Lemma messageAsBuffer_not_lower_hex (s : JsString) :
  isLowerHexString s = false -> messageAsBuffer s = Throw (notValidHex s).
Proof.
  intros H. unfold messageAsBuffer, toBuffer. cbn [BufferJs.from bind].
  rewrite strictEq_neq; [reflexivity|].
  intros E. rewrite <- E in H.
  change (isLowerHexString (hexSlice (hexWrite (List.length s / 2) s 0))
          = false) in H.
  rewrite isLowerHexString_hexSlice in H. discriminate H.
Qed.

(** ** Calls without side effects *)

Lemma pure_ret {World A : Type} (a : A) :
  Effectful.pure (Effectful.ret (World := World) a).
Proof. exists (Return a). reflexivity. Qed.

Lemma pure_throw {World A : Type} (e : JsError) :
  Effectful.pure (Effectful.throw (World := World) (A := A) e).
Proof. exists (Throw e). reflexivity. Qed.

Lemma pure_bind {World A B : Type}
  (c : Effectful.Js World A) (k : A -> Effectful.Js World B) :
  Effectful.pure c -> (forall a, Effectful.pure (k a)) ->
  Effectful.pure (Effectful.bind c k).
Proof.
  intros [r Hc] Hk. destruct r as [a | e].
  - destruct (Hk a) as [r' Hka]. exists r'. intros w.
    unfold Effectful.bind. rewrite Hc. apply Hka.
  - exists (Throw e). intros w. unfold Effectful.bind. rewrite Hc.
    reflexivity.
Qed.

Lemma pure_schemaAsBuffer {World : Type} (api : Effectful.BufferApi World) :
  Effectful.pureApi api ->
  forall s, Effectful.pure (Effectful.schemaAsBuffer api s).
Proof.
  intros [Pb Ps] s. unfold Effectful.schemaAsBuffer.
  apply pure_bind; [apply Pb|]. intros res.
  apply pure_bind; [apply Ps|]. intros text.
  destruct (negb (strictEq text s)); [apply pure_throw | apply pure_ret].
Qed.

Lemma pure_messageAsBuffer {World : Type} (api : Effectful.BufferApi World) :
  Effectful.pureApi api ->
  forall s, Effectful.pure (Effectful.messageAsBuffer api s).
Proof.
  intros [Pb Ps] s. unfold Effectful.messageAsBuffer.
  apply pure_bind; [apply Pb|]. intros res.
  apply pure_bind; [apply Ps|]. intros text.
  destruct (negb (strictEq text s)); [apply pure_throw | apply pure_ret].
Qed.

Lemma pureApi_bufferPackage (World : Type) :
  Effectful.pureApi (bufferPackage World).
Proof.
  split; intros; eexists; intros w; reflexivity.
Qed.

(** With the package as modelled, the constructors in a world are the
    value-level constructors. *)
Lemma schemaAsBuffer_in_world {World : Type} (s : JsString) (w : World) :
  Effectful.schemaAsBuffer (bufferPackage World) s w = (schemaAsBuffer s, w).
Proof.
  unfold Effectful.schemaAsBuffer, schemaAsBuffer, Effectful.bind.
  cbn [bufferPackage Effectful.toBuffer Effectful.toString].
  destruct (toBuffer s base64) as [res | e]; cbn [Js.bind]; [|reflexivity].
  destruct (negb (strictEq (toString res base64) s)); reflexivity.
Qed.

Lemma messageAsBuffer_in_world {World : Type} (s : JsString) (w : World) :
  Effectful.messageAsBuffer (bufferPackage World) s w = (messageAsBuffer s, w).
Proof.
  unfold Effectful.messageAsBuffer, messageAsBuffer, Effectful.bind.
  cbn [bufferPackage Effectful.toBuffer Effectful.toString].
  destruct (toBuffer s hex) as [res | e]; cbn [Js.bind]; [|reflexivity].
  destruct (negb (strictEq (toString res hex) s)); reflexivity.
Qed.

Lemma moduleSchemaFromBase64_in_world
  {World SchemaVersion : Type} (s : JsString) (v : option SchemaVersion)
  (w : World) :
  Effectful.moduleSchemaFromBase64 (bufferPackage World) s v w
  = (moduleSchemaFromBase64 s v, w).
Proof.
  unfold Effectful.moduleSchemaFromBase64, moduleSchemaFromBase64.
  unfold Effectful.bind at 1. rewrite schemaAsBuffer_in_world.
  destruct (schemaAsBuffer s); reflexivity.
Qed.

Lemma typeSchemaFromBase64_in_world
  {World : Type} (s : JsString) (w : World) :
  Effectful.typeSchemaFromBase64 (bufferPackage World) s w
  = (typeSchemaFromBase64 s, w).
Proof.
  unfold Effectful.typeSchemaFromBase64, typeSchemaFromBase64.
  unfold Effectful.bind at 1. rewrite schemaAsBuffer_in_world.
  destruct (schemaAsBuffer s); reflexivity.
Qed.

Lemma binaryMessageFromHex_in_world
  {World : Type} (s : JsString) (schema : TypeSchema.t) (w : World) :
  Effectful.binaryMessageFromHex (bufferPackage World) s schema w
  = (binaryMessageFromHex s schema, w).
Proof.
  unfold Effectful.binaryMessageFromHex, binaryMessageFromHex.
  unfold Effectful.bind at 1. rewrite messageAsBuffer_in_world.
  destruct (messageAsBuffer s); reflexivity.
Qed.

(** A package that looks at the world shows through the constructors: the
    same string is accepted in one world and rejected in another. *)
Example flagged_package_is_visible :
  fst (Effectful.typeSchemaFromBase64 flaggedPackage (str "AAE=") true)
  = Return (typeSchema [x00; x01])
  /\ fst (Effectful.typeSchemaFromBase64 flaggedPackage (str "AAE=") false)
     = Throw (notValidBase64 (str "AAE=")).
Proof. split; reflexivity. Qed.

(** * The claims *)

(** C1: for a canonical base64 string [s], [moduleSchemaFromBase64 s version]
    and [typeSchemaFromBase64 s] return a schema whose [value], encoded to
    base64 again, is [s]; for any other string both throw the
    "is not valid base64" error. *)
Theorem schema_from_base64_round_trip
  (SchemaVersion : Type) (s : JsString) (version : option SchemaVersion) :
  (canonicalBase64 s ->
   (exists m, moduleSchemaFromBase64 s version = Return m
              /\ toString (ModuleSchema.value m) base64 = s)
   /\ (exists t, typeSchemaFromBase64 s = Return t
                 /\ toString (TypeSchema.value t) base64 = s))
  /\ (~ canonicalBase64 s ->
      moduleSchemaFromBase64 s version = Throw (notValidBase64 s)
      /\ typeSchemaFromBase64 s = Throw (notValidBase64 s)).
Proof.
  split.
  - intros [buf ->].
    unfold moduleSchemaFromBase64, typeSchemaFromBase64.
    rewrite schemaAsBuffer_canonical. cbn [bind].
    split; eexists; (split; [reflexivity|]); reflexivity.
  - intros H. unfold moduleSchemaFromBase64, typeSchemaFromBase64.
    rewrite (schemaAsBuffer_not_canonical s H). split; reflexivity.
Qed.

Lemma schema_from_base64_round_trip_witness :
  ((exists m, moduleSchemaFromBase64 (SchemaVersion := nat) (str "AAE=") None
              = Return m
              /\ toString (ModuleSchema.value m) base64 = str "AAE=")
   /\ (exists t, typeSchemaFromBase64 (str "AAE=") = Return t
                 /\ toString (TypeSchema.value t) base64 = str "AAE="))
  /\ (moduleSchemaFromBase64 (SchemaVersion := nat) (str "AAE") None
      = Throw (notValidBase64 (str "AAE"))
      /\ typeSchemaFromBase64 (str "AAF=") = Throw (notValidBase64 (str "AAF="))).
Proof.
  split.
  - apply (schema_from_base64_round_trip nat (str "AAE=") None).
    apply isCanonicalBase64_iff. reflexivity.
  - split.
    + apply (schema_from_base64_round_trip nat (str "AAE") None).
      intros H. apply isCanonicalBase64_iff in H. discriminate H.
    + apply (schema_from_base64_round_trip nat (str "AAF=") None).
      intros H. apply isCanonicalBase64_iff in H. discriminate H.
Defined.

(** C2, as amended: for an even-length string [s] of lower-case hexadecimal
    digits, [binaryMessageFromHex s schema] returns a message whose [value],
    encoded to hex again, is [s]; for any other string it throws the
    "is not valid hex" error. *)
Theorem binaryMessageFromHex_round_trip (s : JsString) (schema : TypeSchema.t) :
  (isLowerHexString s = true ->
   exists m, binaryMessageFromHex s schema = Return m
             /\ toString (BinaryMessage.value m) hex = s)
  /\ (isLowerHexString s = false ->
      binaryMessageFromHex s schema = Throw (notValidHex s)).
Proof.
  unfold binaryMessageFromHex. split.
  - intros H. apply isLowerHexString_image in H as [buf ->].
    change (hexSlice buf) with (toString buf hex).
    rewrite messageAsBuffer_image. cbn [bind].
    eexists. split; reflexivity.
  - intros H. rewrite (messageAsBuffer_not_lower_hex s H). reflexivity.
Qed.

Lemma binaryMessageFromHex_round_trip_witness :
  (exists m, binaryMessageFromHex (str "00ff") (typeSchema []) = Return m
             /\ toString (BinaryMessage.value m) hex = str "00ff")
  /\ binaryMessageFromHex (str "0g") (typeSchema [])
     = Throw (notValidHex (str "0g")).
Proof.
  split.
  - apply (binaryMessageFromHex_round_trip (str "00ff") (typeSchema [])).
    reflexivity.
  - apply (binaryMessageFromHex_round_trip (str "0g") (typeSchema [])).
    reflexivity.
Defined.

(** C2, as stated, fails: ["AB"] is a valid hex string (Buffer decodes it to
    the byte 0xab), and [binaryMessageFromHex] throws on it, because the byte
    is encoded to ["ab"] again. *)
Lemma binaryMessageFromHex_upper_case_rejected :
  isHexString (str "AB") = true
  /\ toBuffer (str "AB") hex = Return [xab]
  /\ binaryMessageFromHex (str "AB") (typeSchema [])
     = Throw (notValidHex (str "AB")).
Proof. repeat split. Qed.

(** C3: the [type] of what [typeSchema] returns is ['TypeSchema'] and the
    [type] of what [moduleSchema] returns is ['ModuleSchema'], for every
    buffer and every optional version. *)
Theorem schema_discriminants
  (SchemaVersion : Type) (b : Buffer) (v : option SchemaVersion) :
  TypeSchema.type (typeSchema b) = str "TypeSchema"
  /\ ModuleSchema.type (moduleSchema b v) = str "ModuleSchema"
  /\ schemaTag (SchemaType (SchemaVersion := SchemaVersion) (typeSchema b))
     = str "TypeSchema"
  /\ schemaTag (SchemaModule (moduleSchema b v)) = str "ModuleSchema".
Proof. repeat split. Qed.

(** C6: [moduleSchemaFromBase64('AAE=', undefined)] returns
    [{type: 'ModuleSchema', value: <00 01>, version: undefined}]. *)
Theorem moduleSchemaFromBase64_AAE (SchemaVersion : Type) :
  moduleSchemaFromBase64 (SchemaVersion := SchemaVersion) (str "AAE=") None
  = Return {| ModuleSchema.type := str "ModuleSchema";
              ModuleSchema.value := [x00; x01];
              ModuleSchema.version := None |}.
Proof. reflexivity. Qed.

(** C7: for any type schema, [binaryMessageFromHex('deadbeef', schema)]
    returns a binary message whose [value] is the bytes de ad be ef. *)
Theorem binaryMessageFromHex_deadbeef (schema : TypeSchema.t) :
  binaryMessageFromHex (str "deadbeef") schema
  = Return {| BinaryMessage.type := str "BinaryMessage";
              BinaryMessage.value := [xde; xad; xbe; xef];
              BinaryMessage.schema := schema |}.
Proof. reflexivity. Qed.

(** C8: [stringMessage msg] never throws, returns
    [{type: 'StringMessage', value: msg}] for every string, and leaves the
    world as it is; every constructor helper is without side effects and
    returns or throws the same in every world, as long as the two functions
    of the [buffer] package it calls are; and with that package as modelled
    each helper gives, in every world, what its value-level embedding
    gives. *)
Theorem constructor_helpers_are_pure
  (World SchemaVersion : Type) (api : Effectful.BufferApi World)
  (msg : JsString) :
  (forall w : World,
      Effectful.stringMessage msg w
      = (Return {| StringMessage.type := str "StringMessage";
                   StringMessage.value := msg |}, w))
  /\ stringMessage msg = {| StringMessage.type := str "StringMessage";
                            StringMessage.value := msg |}
  /\ (Effectful.pureApi api ->
      forall (s h : JsString) (v : option SchemaVersion) (b : Buffer)
             (t : TypeSchema.t),
        Effectful.pure (Effectful.moduleSchemaFromBase64 api s v)
        /\ Effectful.pure (Effectful.typeSchemaFromBase64 api s)
        /\ Effectful.pure (Effectful.moduleSchema (World := World) b v)
        /\ Effectful.pure (Effectful.typeSchema (World := World) b)
        /\ Effectful.pure (Effectful.stringMessage (World := World) msg)
        /\ Effectful.pure (Effectful.binaryMessageFromHex api h t))
  /\ (forall (s h : JsString) (v : option SchemaVersion) (b : Buffer)
             (t : TypeSchema.t) (w : World),
         Effectful.moduleSchemaFromBase64 (bufferPackage World) s v w
         = (moduleSchemaFromBase64 s v, w)
         /\ Effectful.typeSchemaFromBase64 (bufferPackage World) s w
            = (typeSchemaFromBase64 s, w)
         /\ Effectful.moduleSchema b v w = (Return (moduleSchema b v), w)
         /\ Effectful.typeSchema b w = (Return (typeSchema b), w)
         /\ Effectful.binaryMessageFromHex (bufferPackage World) h t w
            = (binaryMessageFromHex h t, w)).
Proof.
  split; [reflexivity|]. split; [reflexivity|]. split.
  - intros P s h v b t.
    pose proof (pure_schemaAsBuffer api P s) as Hs.
    pose proof (pure_messageAsBuffer api P h) as Hm.
    repeat split;
      try apply pure_ret;
      apply pure_bind; auto; intros; apply pure_ret.
  - intros s h v b t w. repeat split.
    + apply moduleSchemaFromBase64_in_world.
    + apply typeSchemaFromBase64_in_world.
    + apply binaryMessageFromHex_in_world.
Qed.

Lemma constructor_helpers_are_pure_witness :
  (exists r, forall w : nat,
        Effectful.moduleSchemaFromBase64 (SchemaVersion := nat)
          (bufferPackage nat) (str "AAE") None w = (r, w))
  /\ (exists r, forall w : nat,
         Effectful.binaryMessageFromHex (bufferPackage nat) (str "00ff")
           (typeSchema []) w = (r, w)).
Proof.
  destruct (proj1 (proj2 (proj2 (constructor_helpers_are_pure
                                   nat nat (bufferPackage nat) (str "hi"))))
              (pureApi_bufferPackage nat)
              (str "AAE") (str "00ff") None [] (typeSchema []))
    as (Hmod & _ & _ & _ & _ & Hbin).
  split; [exact Hmod | exact Hbin].
Defined.

(** C9: a message returned by [binaryMessageFromHex msgHex schema] has
    [schema] itself as its [schema], and [moduleSchema buffer v] has [v]
    (also when it is [undefined]) as its [version]. *)
Theorem constructors_keep_schema_and_version
  (SchemaVersion : Type) (msgHex : JsString) (schema : TypeSchema.t)
  (buffer : Buffer) (v : option SchemaVersion) :
  (forall m, binaryMessageFromHex msgHex schema = Return m ->
             BinaryMessage.schema m = schema)
  /\ ModuleSchema.version (moduleSchema buffer v) = v
  /\ ModuleSchema.version (moduleSchema buffer (@None SchemaVersion)) = None.
Proof.
  split; [|split; reflexivity].
  intros m. unfold binaryMessageFromHex.
  destruct (messageAsBuffer msgHex); cbn [bind]; [|discriminate].
  intros [= <-]. reflexivity.
Qed.

Lemma constructors_keep_schema_and_version_witness :
  exists m, binaryMessageFromHex (str "deadbeef") (typeSchema [x07]) = Return m
            /\ BinaryMessage.schema m = typeSchema [x07].
Proof.
  eexists. split; [reflexivity|].
  apply (constructors_keep_schema_and_version
           nat (str "deadbeef") (typeSchema [x07]) [] None).
  reflexivity.
Defined.

(** C10: the empty string is accepted by [moduleSchemaFromBase64],
    [typeSchemaFromBase64] and [binaryMessageFromHex], and the value of the
    result is the empty buffer. *)
Theorem empty_string_accepted
  (SchemaVersion : Type) (v : option SchemaVersion) (schema : TypeSchema.t) :
  moduleSchemaFromBase64 (str "") v = Return (moduleSchema [] v)
  /\ typeSchemaFromBase64 (str "") = Return (typeSchema [])
  /\ binaryMessageFromHex (str "") schema
     = Return {| BinaryMessage.type := str "BinaryMessage";
                 BinaryMessage.value := [];
                 BinaryMessage.schema := schema |}
  /\ toString [] base64 = str "" /\ toString [] hex = str ""
  /\ List.length (ModuleSchema.value (moduleSchema [] v)) = 0%nat.
Proof. repeat split. Qed.

(** C5: if [connection.getJsonRpcClient()] throws, [withJsonRpcClient]
    rejects with what was thrown and [f] is not called; if it returns a
    client [c], [withJsonRpcClient] calls [f c] once and settles as [f c]
    does, a failure of [f] included. *)
Theorem withJsonRpcClient_propagates
  (JsonRpcClient AccountTransactionType SendTransactionPayload
   AccountTransactionSignature SmartContractParameters SchemaVersion
   WalletConnector World T : Type)
  (connection : WalletConnection JsonRpcClient AccountTransactionType
                  SendTransactionPayload AccountTransactionSignature
                  SmartContractParameters SchemaVersion WalletConnector World)
  (f : JsonRpcClient -> Eff World (Result (Promise T)))
  (w : World) (calls : list (Call JsonRpcClient)) :
  (forall e w1,
      getJsonRpcClient connection w = (Throw e, w1) ->
      withJsonRpcClient connection f (w, calls)
      = (Rejected e, (w1, calls ++ [CallGetJsonRpcClient])))
  /\ (forall c w1,
         getJsonRpcClient connection w = (Return c, w1) ->
         withJsonRpcClient connection f (w, calls)
         = (settled (fst (f c w1)),
            (snd (f c w1), calls ++ [CallGetJsonRpcClient; CallF c]))).
Proof.
  split; intros ? w1 H; unfold withJsonRpcClient; rewrite H.
  - reflexivity.
  - destruct (f c w1) as [[p | e] w2]; cbn [fst snd settled];
      rewrite <- app_assoc; reflexivity.
Qed.

Lemma withJsonRpcClient_propagates_witness :
  withJsonRpcClient (counterConnection (Throw (Error (str "no client"))))
    (fun c w => (Return (Fulfilled c), (w + 100)%nat)) (0%nat, [])
  = (Rejected (Error (str "no client")), (1%nat, [CallGetJsonRpcClient]))
  /\ withJsonRpcClient (counterConnection (Return 7%nat))
       (fun c w => (Throw (Error (str "failed")) : Result (Promise nat),
                    (w + 100)%nat)) (0%nat, [])
     = (Rejected (Error (str "failed")),
        (101%nat, [CallGetJsonRpcClient; CallF 7%nat])).
Proof.
  split.
  - exact (proj1 (withJsonRpcClient_propagates _ _ _ _ _ _ _ _ _
             (counterConnection (Throw (Error (str "no client"))))
             (fun c w => (Return (Fulfilled c), (w + 100)%nat)) 0%nat [])
             (Error (str "no client")) 1%nat eq_refl).
  - exact (proj2 (withJsonRpcClient_propagates _ _ _ _ _ _ _ _ _
             (counterConnection (Return 7%nat))
             (fun c w => (Throw (Error (str "failed")) : Result (Promise nat),
                          (w + 100)%nat)) 0%nat [])
             7%nat 1%nat eq_refl).
Defined.

(** * Further properties of the code *)

(** ** What the base64 constructors accept *)

(** X1: [schemaAsBuffer] returns exactly on the strings made of quadruplets of
    [A-Za-z0-9+/] whose last quadruplet may end with one or two ['='] after
    zero unused bits, and throws its own error on every other string; the
    error of [base64-js] never comes out. *)
Theorem schemaAsBuffer_accepts_exactly (s : JsString) :
  (isCanonicalBase64 s = true ->
   exists buf, schemaAsBuffer s = Return buf /\ toString buf base64 = s)
  /\ (isCanonicalBase64 s = false ->
      schemaAsBuffer s = Throw (notValidBase64 s)).
Proof.
  split; intros H.
  - apply isCanonicalBase64_iff in H as [buf ->].
    exists buf. split; [apply schemaAsBuffer_canonical | reflexivity].
  - apply schemaAsBuffer_not_canonical. intros C.
    apply isCanonicalBase64_iff in C. congruence.
Qed.

Lemma schemaAsBuffer_accepts_exactly_witness :
  (exists buf, schemaAsBuffer (str "Zm9vYg==") = Return buf
               /\ toString buf base64 = str "Zm9vYg==")
  /\ schemaAsBuffer (str "Zm9vYh==")
     = Throw (notValidBase64 (str "Zm9vYh==")).
Proof.
  split.
  - apply (schemaAsBuffer_accepts_exactly (str "Zm9vYg==")). reflexivity.
  - apply (schemaAsBuffer_accepts_exactly (str "Zm9vYh==")). reflexivity.
Defined.

(** X2: building a schema from the base64 text of a buffer is building it from
    the buffer. *)
Theorem schema_from_encoded_buffer
  (SchemaVersion : Type) (buf : Buffer) (version : option SchemaVersion) :
  moduleSchemaFromBase64 (toString buf base64) version
  = Return (moduleSchema buf version)
  /\ typeSchemaFromBase64 (toString buf base64) = Return (typeSchema buf).
Proof.
  unfold moduleSchemaFromBase64, typeSchemaFromBase64.
  rewrite schemaAsBuffer_canonical. split; reflexivity.
Qed.

(** X3: building a binary message from the hex text of a buffer gives a message
    with that buffer as value. *)
Theorem binaryMessage_from_encoded_buffer
  (buf : Buffer) (schema : TypeSchema.t) :
  binaryMessageFromHex (toString buf hex) schema
  = Return {| BinaryMessage.type := str "BinaryMessage";
              BinaryMessage.value := buf;
              BinaryMessage.schema := schema |}.
Proof.
  unfold binaryMessageFromHex. rewrite messageAsBuffer_image. reflexivity.
Qed.

Lemma messageAsBuffer_returns (s : JsString) (buf : Buffer) :
  messageAsBuffer s = Return buf -> toString buf hex = s.
Proof.
  unfold messageAsBuffer. destruct (toBuffer s hex) as [r|e]; cbn [bind];
    [|discriminate].
  destruct (strictEq (toString r hex) s) eqn:E; cbn [negb]; [|discriminate].
  intros [= <-]. apply strictEq_spec, E.
Qed.

Lemma moduleSchemaFromBase64_returns
  (SchemaVersion : Type) (s : JsString) (v : option SchemaVersion)
  (m : ModuleSchema.t SchemaVersion) :
  moduleSchemaFromBase64 s v = Return m ->
  schemaAsBuffer s = Return (ModuleSchema.value m).
Proof.
  unfold moduleSchemaFromBase64.
  destruct (schemaAsBuffer s) as [buf|e]; cbn [bind]; [|discriminate].
  intros [= <-]. reflexivity.
Qed.

Lemma typeSchemaFromBase64_returns (s : JsString) (t : TypeSchema.t) :
  typeSchemaFromBase64 s = Return t ->
  schemaAsBuffer s = Return (TypeSchema.value t).
Proof.
  unfold typeSchemaFromBase64.
  destruct (schemaAsBuffer s) as [buf|e]; cbn [bind]; [|discriminate].
  intros [= <-]. reflexivity.
Qed.

Lemma binaryMessageFromHex_returns
  (s : JsString) (schema : TypeSchema.t) (m : BinaryMessage.t) :
  binaryMessageFromHex s schema = Return m ->
  messageAsBuffer s = Return (BinaryMessage.value m).
Proof.
  unfold binaryMessageFromHex.
  destruct (messageAsBuffer s) as [buf|e]; cbn [bind]; [|discriminate].
  intros [= <-]. reflexivity.
Qed.

(** X4: two strings from which the base64 constructors build schemas with the
    same bytes are the same string, for each pairing of the two
    constructors and whatever the versions. *)
Theorem base64_text_determined_by_value
  (SchemaVersion : Type) (s s' : JsString) (v v' : option SchemaVersion)
  (m m' : ModuleSchema.t SchemaVersion) (t t' : TypeSchema.t) :
  (moduleSchemaFromBase64 s v = Return m ->
   moduleSchemaFromBase64 s' v' = Return m' ->
   ModuleSchema.value m = ModuleSchema.value m' -> s = s')
  /\ (moduleSchemaFromBase64 s v = Return m ->
      typeSchemaFromBase64 s' = Return t' ->
      ModuleSchema.value m = TypeSchema.value t' -> s = s')
  /\ (typeSchemaFromBase64 s = Return t ->
      moduleSchemaFromBase64 s' v' = Return m' ->
      TypeSchema.value t = ModuleSchema.value m' -> s = s')
  /\ (typeSchemaFromBase64 s = Return t ->
      typeSchemaFromBase64 s' = Return t' ->
      TypeSchema.value t = TypeSchema.value t' -> s = s').
Proof.
  repeat split; intros H H' E;
    first [ apply moduleSchemaFromBase64_returns, schemaAsBuffer_returns in H
          | apply typeSchemaFromBase64_returns, schemaAsBuffer_returns in H ];
    first [ apply moduleSchemaFromBase64_returns, schemaAsBuffer_returns in H'
          | apply typeSchemaFromBase64_returns, schemaAsBuffer_returns in H' ];
    congruence.
Qed.

Lemma base64_text_determined_by_value_witness :
  (moduleSchemaFromBase64 (str "AAE=") None
   = Return (moduleSchema (SchemaVersion := nat) [x00; x01] None)
   /\ typeSchemaFromBase64 (str "AAE=") = Return (typeSchema [x00; x01]))
  /\ str "AAE=" = str "AAE="
  /\ str "AAE=" = str "AAE="
  /\ str "AAE=" = str "AAE="
  /\ str "AAE=" = str "AAE=".
Proof.
  split; [split; reflexivity|].
  destruct (base64_text_determined_by_value
              nat (str "AAE=") (str "AAE=") None (Some 1%nat)
              (moduleSchema [x00; x01] None)
              (moduleSchema [x00; x01] (Some 1%nat))
              (typeSchema [x00; x01]) (typeSchema [x00; x01]))
    as (MM & MT & TM & TT).
  split; [exact (MM eq_refl eq_refl eq_refl)|].
  split; [exact (MT eq_refl eq_refl eq_refl)|].
  split; [exact (TM eq_refl eq_refl eq_refl)|].
  exact (TT eq_refl eq_refl eq_refl).
Defined.

(** X5: two strings from which [binaryMessageFromHex] builds messages with the
    same bytes are the same string. *)
Theorem hex_text_determined_by_value
  (s s' : JsString) (schema schema' : TypeSchema.t) (m m' : BinaryMessage.t) :
  binaryMessageFromHex s schema = Return m ->
  binaryMessageFromHex s' schema' = Return m' ->
  BinaryMessage.value m = BinaryMessage.value m' -> s = s'.
Proof.
  intros Hm Hm' E.
  apply binaryMessageFromHex_returns, messageAsBuffer_returns in Hm, Hm'.
  congruence.
Qed.

Lemma hex_text_determined_by_value_witness :
  messageAsBuffer (str "00ff") = Return [x00; xff]
  /\ str "00ff" = str "00ff".
Proof.
  split; [reflexivity|].
  exact (hex_text_determined_by_value
           (str "00ff") (str "00ff") (typeSchema []) (typeSchema [x01])
           {| BinaryMessage.type := str "BinaryMessage";
              BinaryMessage.value := [x00; xff];
              BinaryMessage.schema := typeSchema [] |}
           {| BinaryMessage.type := str "BinaryMessage";
              BinaryMessage.value := [x00; xff];
              BinaryMessage.schema := typeSchema [x01] |}
           eq_refl eq_refl eq_refl).
Defined.

(** ** Padding and sizes *)

Lemma base64clean_pads (data : JsString) (p T : nat) :
  forallb isBase64Char data = true ->
  (List.length data + p = 4 * T + 4)%nat ->
  p = 1%nat \/ p = 2%nat ->
  base64clean data = data ++ repeat 61 p.
Proof.
  intros Hd Hl Hp. unfold base64clean.
  pose proof (splitHead_data data [] Hd) as S.
  cbn [splitHead] in S. rewrite !app_nil_r in S. rewrite S.
  rewrite (trim_data _ Hd), (filter_all _ _ Hd).
  destruct (Z.ltb_spec (Z.of_nat (List.length data)) 2) as [L | L]; [lia|].
  destruct Hp as [-> | ->]; cbn [padToQuad repeat].
  - replace (Z.of_nat (List.length data) mod 4 =? 0) with false
      by (symmetry; apply Z.eqb_neq; euclid).
    rewrite length_app. cbn [List.length].
    replace (Z.of_nat (List.length data + 1) mod 4 =? 0) with true
      by (symmetry; apply Z.eqb_eq; euclid).
    reflexivity.
  - replace (Z.of_nat (List.length data) mod 4 =? 0) with false
      by (symmetry; apply Z.eqb_neq; euclid).
    rewrite !length_app. cbn [List.length].
    replace (Z.of_nat (List.length data + 1) mod 4 =? 0) with false
      by (symmetry; apply Z.eqb_neq; euclid).
    replace (Z.of_nat (List.length data + 1 + 1) mod 4 =? 0) with true
      by (symmetry; apply Z.eqb_eq; euclid).
    rewrite <- app_assoc. reflexivity.
Qed.

Lemma placeHolders_length (buf : Buffer) :
  Z.of_nat (List.length buf) mod 3 <> 0 ->
  placeHolders buf = 1%nat \/ placeHolders buf = 2%nat.
Proof.
  intros H. pose proof (length_triplets buf) as L.
  destruct (placeHolders_cases buf) as [P | [P | P]]; rewrite P in *; auto.
  exfalso. apply H. euclid.
Qed.

(** X6: the round-trip check is what requires the padding: when the length of a
    buffer is not a multiple of three, [toBuffer] reads its base64 text
    without the ['='] as the same bytes, and [schemaAsBuffer] throws on that
    text. *)
Theorem schemaAsBuffer_requires_padding (buf : Buffer) :
  Z.of_nat (List.length buf) mod 3 <> 0 ->
  toBuffer (unpaddedBase64 buf) base64 = Return buf
  /\ schemaAsBuffer (unpaddedBase64 buf)
     = Throw (notValidBase64 (unpaddedBase64 buf)).
Proof.
  intros H. apply placeHolders_length in H.
  destruct (fromByteArray_shape buf) as (data & E & Hd & Hl).
  assert (U : unpaddedBase64 buf = data).
  { unfold unpaddedBase64, toString. rewrite E, (splitHead_data _ _ Hd).
    rewrite splitHead_pad. apply app_nil_r. }
  assert (Hl' : (List.length data + placeHolders buf
                 = 4 * triplets buf + 4)%nat)
    by (destruct H as [P | P]; rewrite P in *; exact Hl).
  assert (D : toBuffer data base64 = Return buf).
  { unfold toBuffer, BufferJs.from, base64ToBytes.
    rewrite (base64clean_pads data _ _ Hd Hl' H), <- E.
    apply toByteArray_fromByteArray. }
  rewrite U. split; [exact D|].
  unfold schemaAsBuffer. rewrite D. cbn [bind].
  rewrite strictEq_neq; [reflexivity|].
  unfold toString. rewrite E. intros A.
  apply (f_equal (@List.length Z)) in A.
  rewrite length_app, repeat_length in A. lia.
Qed.

Lemma schemaAsBuffer_requires_padding_witness :
  toBuffer (str "Zm9vYg") base64 = Return [x66; x6f; x6f; x62]
  /\ schemaAsBuffer (str "Zm9vYg") = Throw (notValidBase64 (str "Zm9vYg")).
Proof.
  apply (schemaAsBuffer_requires_padding [x66; x6f; x6f; x62]).
  discriminate.
Defined.

(** X7: a string the base64 constructors accept has four characters for every
    three bytes of the value, the last group rounded up. *)
Theorem accepted_base64_length (s : JsString) (buf : Buffer) :
  schemaAsBuffer s = Return buf ->
  Z.of_nat (List.length s) = 4 * ((Z.of_nat (List.length buf) + 2) / 3).
Proof.
  intros H. apply schemaAsBuffer_returns in H. subst s.
  destruct (fromByteArray_shape buf) as (data & E & _ & Hl).
  pose proof (length_triplets buf) as L.
  unfold toString. rewrite E, length_app, repeat_length.
  destruct (placeHolders_cases buf) as [P | [P | P]]; rewrite P in *; euclid.
Qed.

Lemma accepted_base64_length_witness :
  Z.of_nat (List.length (str "Zm9vYg==")) = 4 * ((4 + 2) / 3).
Proof.
  exact (accepted_base64_length (str "Zm9vYg==") [x66; x6f; x6f; x62] eq_refl).
Defined.

(** X8: a string [binaryMessageFromHex] accepts has two characters for every
    byte of the value. *)
Theorem accepted_hex_length
  (s : JsString) (schema : TypeSchema.t) (m : BinaryMessage.t) :
  binaryMessageFromHex s schema = Return m ->
  List.length s = (2 * List.length (BinaryMessage.value m))%nat.
Proof.
  intros H. apply binaryMessageFromHex_returns, messageAsBuffer_returns in H.
  rewrite <- H. apply hexSlice_length.
Qed.

Lemma accepted_hex_length_witness :
  List.length (str "deadbeef") = (2 * 4)%nat.
Proof.
  exact (accepted_hex_length (str "deadbeef") (typeSchema [])
           {| BinaryMessage.type := str "BinaryMessage";
              BinaryMessage.value := [xde; xad; xbe; xef];
              BinaryMessage.schema := typeSchema [] |} eq_refl).
Defined.

(** ** Hex digits in upper case *)

Lemma isHexDigit_listed (c : Z) :
  isHexDigit c = true -> In c (str "0123456789abcdefABCDEF").
Proof.
  unfold isHexDigit, isLowerHexDigit.
  rewrite !orb_true_iff, !andb_true_iff, !Z.leb_le. intros H.
  assert (E : c = 48 \/ c = 49 \/ c = 50 \/ c = 51 \/ c = 52 \/ c = 53
              \/ c = 54 \/ c = 55 \/ c = 56 \/ c = 57 \/ c = 97 \/ c = 98
              \/ c = 99 \/ c = 100 \/ c = 101 \/ c = 102 \/ c = 65 \/ c = 66
              \/ c = 67 \/ c = 68 \/ c = 69 \/ c = 70) by lia.
  cbv [str list_ascii_of_string map N_of_ascii N_of_digits
       Z.of_N N.add N.mul Pos.add Pos.mul Pos.succ In].
  intuition auto.
Qed.

Lemma hexPair_table (h l : Z) :
  isHexDigit h = true -> isHexDigit l = true -> hexPairOk h l = true.
Proof.
  intros Hh Hl.
  assert (T : forallb (fun x => forallb (hexPairOk x)
                                        (str "0123456789abcdefABCDEF"))
                      (str "0123456789abcdefABCDEF") = true)
    by (vm_compute; reflexivity).
  rewrite forallb_forall in T. specialize (T h (isHexDigit_listed h Hh)).
  rewrite forallb_forall in T. apply T, isHexDigit_listed, Hl.
Qed.

Lemma half_length_pair {A : Type} (a b : A) (rest : list A) :
  (List.length (a :: b :: rest) / 2 = S (List.length rest / 2))%nat.
Proof.
  cbn [List.length].
  replace (S (S (List.length rest))) with (List.length rest + 1 * 2)%nat by lia.
  rewrite Nat.div_add by lia. lia.
Qed.

Lemma hexWrite_hex_string (s : JsString) :
  isHexString s = true ->
  forall (pre : JsString) (i : nat),
    List.length pre = (2 * i)%nat ->
    hexSlice (hexWrite (List.length s / 2) (pre ++ s) i) = map hexToLower s.
Proof.
  unfold isHexString.
  induction s as [| h | h l rest IH] using list_ind_by_2; intros H pre i Hpre.
  - reflexivity.
  - discriminate H.
  - cbn [List.length Nat.even forallb] in H.
    rewrite !andb_true_iff in H. destruct H as (Hev & Hh & Hl & Hrest).
    rewrite half_length_pair. cbn [hexWrite].
    rewrite (substr2_app _ _ _ Hpre). cbn [firstn].
    pose proof (hexPair_table h l Hh Hl) as T. unfold hexPairOk in T.
    unfold byteOfDigits in T.
    destruct (parseInt16 [h; l]) as [v|]; [|discriminate T].
    apply strictEq_spec in T.
    unfold hexSlice in *. cbn [flat_map map]. rewrite T. cbn [app].
    do 2 f_equal.
    change (pre ++ h :: l :: rest) with (pre ++ [h; l] ++ rest).
    rewrite app_assoc. apply IH.
    + rewrite Hev, Hrest. reflexivity.
    + rewrite length_app. cbn [List.length]. lia.
Qed.

(** X9: hex digits in upper case are read by the decoder and lost by the
    round-trip check only: for a string [s] of an even number of hex digits
    in either case, [toBuffer] returns bytes whose hex text is [s] in lower
    case, and [binaryMessageFromHex] accepts [s] in lower case with those
    bytes as value. *)
Theorem hex_accepted_in_lower_case (s : JsString) (schema : TypeSchema.t) :
  isHexString s = true ->
  exists buf,
    toBuffer s hex = Return buf
    /\ toString buf hex = map hexToLower s
    /\ binaryMessageFromHex (map hexToLower s) schema
       = Return {| BinaryMessage.type := str "BinaryMessage";
                   BinaryMessage.value := buf;
                   BinaryMessage.schema := schema |}.
Proof.
  intros H. exists (hexWrite (List.length s / 2) s 0).
  pose proof (hexWrite_hex_string s H [] 0 eq_refl) as E. cbn [app] in E.
  split; [reflexivity|]. split; [exact E|].
  rewrite <- E. unfold binaryMessageFromHex.
  change (hexSlice (hexWrite (List.length s / 2) s 0))
    with (toString (hexWrite (List.length s / 2) s 0) hex).
  rewrite messageAsBuffer_image. reflexivity.
Qed.

Lemma hex_accepted_in_lower_case_witness :
  exists buf,
    toBuffer (str "DeadBEEF") hex = Return buf
    /\ toString buf hex = str "deadbeef"
    /\ binaryMessageFromHex (str "deadbeef") (typeSchema [])
       = Return {| BinaryMessage.type := str "BinaryMessage";
                   BinaryMessage.value := buf;
                   BinaryMessage.schema := typeSchema [] |}.
Proof.
  exact (hex_accepted_in_lower_case (str "DeadBEEF") (typeSchema []) eq_refl).
Defined.

(** ** The deep-link handler *)

(** X10: [concordiumDeepLinkHandle] opens [concordium://] and nothing else, and
    then shows an alert exactly when opening failed with an [Error], with the
    message of that error; a failure with any other value leaves no trace
    beyond what [openURL] did. *)
Theorem concordiumDeepLinkHandle_calls
  (World NonError : Type)
  (openURL : JsString -> World -> Awaited NonError * World)
  (alert : JsString -> World -> option (Thrown NonError) * World)
  (w : World) (calls : list DeepLinkCall) :
  let opened := openURL (str "concordium://") w in
  let done := concordiumDeepLinkHandle openURL alert (w, calls) in
  (exists message,
      fst opened = AwaitThrown (ThrownError (Error message))
      /\ snd (snd done)
         = calls ++ [CallOpenURL (str "concordium://"); CallAlert message]
      /\ fst (snd done) = snd (alert message (snd opened)))
  \/ ((forall message,
          fst opened <> AwaitThrown (ThrownError (Error message)))
      /\ snd (snd done) = calls ++ [CallOpenURL (str "concordium://")]
      /\ fst (snd done) = snd opened).
Proof.
  cbv zeta. unfold concordiumDeepLinkHandle.
  destruct (openURL (str "concordium://") w) as [[ | [[message] | v] | ] w1];
    cbn [fst snd].
  - right. repeat split. discriminate.
  - left. exists message.
    destruct (alert message w1) as [[v|] w2]; cbn [fst snd];
      rewrite <- app_assoc; repeat split.
  - right. repeat split. discriminate.
  - right. repeat split. discriminate.
Qed.

(** X11: when [Alert.alert] returns normally, the promise of
    [concordiumDeepLinkHandle] is never rejected, whatever [openURL] does,
    and it stays pending only if the promise of [openURL] does. *)
Theorem concordiumDeepLinkHandle_never_rejects
  (World NonError : Type)
  (openURL : JsString -> World -> Awaited NonError * World)
  (alert : JsString -> World -> option (Thrown NonError) * World)
  (st : World * list DeepLinkCall) :
  (forall message w, fst (alert message w) = None) ->
  (forall v, fst (concordiumDeepLinkHandle openURL alert st)
             <> HandleRejected v)
  /\ (fst (concordiumDeepLinkHandle openURL alert st) = HandlePending
      <-> fst (openURL (str "concordium://") (fst st)) = AwaitNever).
Proof.
  intros A. destruct st as [w calls]. unfold concordiumDeepLinkHandle.
  cbn [fst].
  destruct (openURL (str "concordium://") w) as [[ | [[message] | v] | ] w1];
    cbn [fst snd]; try (split; [discriminate | split; discriminate]).
  - specialize (A message w1).
    destruct (alert message w1) as [[v|] w2]; cbn [fst] in *;
      [discriminate A|].
    split; [discriminate | split; discriminate].
  - split; [discriminate | split; reflexivity].
Qed.

Lemma concordiumDeepLinkHandle_never_rejects_witness :
  fst (concordiumDeepLinkHandle (NonError := nat)
         (fun _ (w : nat) => (AwaitThrown (ThrownOther 404%nat), S w))
         (fun _ w => (None, S w)) (0%nat, []))
  <> HandleRejected (ThrownOther 404%nat).
Proof.
  exact (proj1 (concordiumDeepLinkHandle_never_rejects nat nat
                  (fun _ w => (AwaitThrown (ThrownOther 404%nat), S w))
                  (fun _ w => (None, S w)) (0%nat, [])
                  (fun _ _ => eq_refl))
               (ThrownOther 404%nat)).
Defined.

(** ** The counter *)

Lemma fold_press_net (presses : list CounterPress) :
  forall count,
    Z.abs count + Z.of_nat (List.length presses) <= 9007199254740992 ->
    fold_left press presses count
    = count + timesPressed PressIncrement presses
      - timesPressed PressDecrement presses.
Proof.
  unfold timesPressed.
  induction presses as [|p presses IH]; intros count H; cbn [fold_left].
  - cbn. lia.
  - cbn [List.length] in H. rewrite IH.
    + destruct p; cbn [press filter List.length];
        unfold increment, decrement, setCount, plusOne, minusOne.
      * destruct (Z.eqb_spec count (-9007199254740992)); lia.
      * destruct (Z.eqb_spec count 9007199254740992); lia.
    + destruct p; cbn [press];
        unfold increment, decrement, setCount, plusOne, minusOne.
      * destruct (Z.eqb_spec count (-9007199254740992)); lia.
      * destruct (Z.eqb_spec count 9007199254740992); lia.
Qed.

(** X12: after up to [2^53] presses the count is the number of presses of the
    increment button minus the number of presses of the decrement button:
    nothing keeps it from going below zero. *)
Theorem countAfter_is_net_presses (presses : list CounterPress) :
  Z.of_nat (List.length presses) <= 9007199254740992 ->
  countAfter presses
  = timesPressed PressIncrement presses - timesPressed PressDecrement presses.
Proof.
  intros H. unfold countAfter. rewrite fold_press_net; lia.
Qed.

Lemma countAfter_is_net_presses_witness :
  countAfter [PressDecrement; PressIncrement; PressDecrement; PressDecrement]
  = 1 - 3.
Proof.
  apply (countAfter_is_net_presses
           [PressDecrement; PressIncrement; PressDecrement; PressDecrement]).
  vm_compute. discriminate.
Defined.
